(** * Cnchi, [src/pacman/pac.py]: the [Pac] front end to libalpm

    A shallow embedding of the target resolution of [Pac.install], of the
    transaction life cycle ([init_transaction], [finalize_transaction]) and
    of the event and progress callbacks ([queue_event], [cb_progress],
    [cb_dl]), followed by the properties the specification states about
    them.

    Conventions of the embedding:
    - a Python call is a function from the [Pac] instance to its result
      (returned value or raised exception), the instance after the call and
      the effects the call performed on the outside world, oldest first;
    - pyalpm is outside the repository: a database is given by what
      [get_pkg] and [read_grp] answer, a transaction by what [add_pkg],
      [prepare], [commit] and [release] do when called;
    - Python floats are idealised as real numbers. *)

From Stdlib Require Import Reals Lra Lia ZArith String List Sorted.
From stdpp Require Import gmap strings list pretty.

Local Open Scope string_scope.
Local Open Scope Z_scope.
Local Open Scope list_scope.

(** ** The Python runtime *)

Module Py.

(** The exceptions the module raises or lets through. [AlpmError] is
    [pyalpm.error], the only one the [except] clauses of the module
    catch; [SystemExit] is what [sys.exit] raises. *)
Inductive exn : Type :=
| AlpmError (msg : string)
| AttributeError
| IndexError
| ValueError
| ZeroDivisionError
| SystemExit (code : Z).

Inductive result (A : Type) : Type :=
| Returned (a : A)
| Raised (e : exn).
Arguments Returned {A} a.
Arguments Raised {A} e.

Definition is_alpm_error (e : exn) : bool :=
  match e with AlpmError _ => true | _ => false end.

(** What a callee does when called: [None] returns, [Some e] raises. *)
Definition outcome : Type := option exn.

(** [collections.OrderedDict] with string keys: assignment to a key that
    is present keeps the key's position, a new key goes to the end. *)
Definition OrderedDict (V : Type) : Type := list (string * V).

Fixpoint setitem {V} (k : string) (v : V) (d : OrderedDict V) : OrderedDict V :=
  match d with
  | [] => [(k, v)]
  | (k', v') :: d' =>
      if String.eqb k' k then (k', v) :: d' else (k', v') :: setitem k v d'
  end.

Definition values {V} (d : OrderedDict V) : list V := map snd d.

(** [list(set(l))]: the elements of [l], each once. Python leaves the
    order of a set unspecified; the model fixes the order of [elements],
    and no statement below depends on it. *)
Definition list_set (l : list string) : list string :=
  elements (list_to_set l : gset string).

End Py.
Import Py.

(** ** pyalpm, at its interface *)

Module Alpm.

(** A package as the front end sees it: its [name], and [db], the name of
    the database it belongs to. *)
Record Package : Type := {
  name : string;
  version : string;
  db : string
}.

(** A sync database: what [get_pkg] and [read_grp] look into. *)
Record DB : Type := {
  db_name : string;
  pkgcache : list Package;
  grpcache : list (string * list Package)
}.

(** [database.get_pkg(name)]: the package, or [None]. *)
Definition get_pkg (database : DB) (pkgname : string) : option Package :=
  List.find (fun p => String.eqb (name p) pkgname) (pkgcache database).

(** [database.read_grp(name)]: the pair (name, packages), or [None]. *)
Definition read_grp (database : DB) (grpname : string)
  : option (string * list Package) :=
  List.find (fun g => String.eqb (fst g) grpname) (grpcache database).

(** The keyword arguments of [Handle.init_transaction]. *)
Record Flags : Type := {
  f_nodeps : bool; f_dbonly : bool; f_force : bool; f_needed : bool;
  f_alldeps : bool; f_allexplicit : bool; f_cascade : bool;
  f_nosave : bool; f_recurse : bool; f_recurseall : bool;
  f_unneeded : bool; f_downloadonly : bool
}.

(** A transaction: an identity, and what each of its methods does. *)
Record Transaction : Type := {
  tid : nat;
  add_pkg : Package -> outcome;
  prepare : outcome;
  commit : outcome;
  release : outcome
}.

Record Handle : Type := {
  get_syncdbs : list DB;
  get_localdb : DB;
  init_transaction : Flags -> result Transaction
}.

Definition PKG_REASON_EXPLICIT : Z := 0.
Definition PKG_REASON_DEPEND : Z := 1.

End Alpm.
Import Alpm.

(** ** The [Pac] instance, effects, and the monad of a method call *)

Module Pac.

Inductive level : Type := DEBUG | WARNING | ERROR.

(** The text of an event as [queue_event] receives it: a string, or a
    number (the progress callbacks pass numbers with kind ['percent']). *)
Inductive value : Type :=
| Str (s : string)
| Num (x : R).

(** An argument of a logging call. *)
Inductive logarg : Type :=
| AStr (s : string)
| AInt (z : Z)
| AVal (v : value)
| AList (l : list string)
| AExn (e : exn).

(** What a call does to the outside world. *)
Inductive effect : Type :=
| Log (lvl : level) (msg : logarg) (args : list logarg)
| TransInit (flags : Flags)
| TransAddPkg (t : nat) (p : Package)
| TransPrepare (t : nat)
| TransCommit (t : nat)
| TransRelease (t : nat)
| QueueJoin.

(** [queue.Queue]: [maxsize <= 0] is unbounded; [unfinished_tasks] is
    what [join] waits on. *)
Record Queue : Type := {
  maxsize : Z;
  items : list (string * value);
  unfinished_tasks : nat
}.

(** [Queue.put_nowait(item)]; [None] stands for [queue.Full]. *)
Definition put_nowait (q : Queue) (item : string * value) : option Queue :=
  if (0 <? maxsize q) && (maxsize q <=? Z.of_nat (length (items q)))
  then None
  else Some {| maxsize := maxsize q;
               items := items q ++ [item];
               unfinished_tasks := S (unfinished_tasks q) |}.

(** The attributes of a [Pac] instance that the methods below use. *)
Record Pac : Type := {
  callback_queue : option Queue;
  handle : option Handle;
  last_dl_filename : option string;
  last_dl_progress : R;
  last_dl_total_size : Z;
  total_packages_to_download : Z;
  downloaded_packages : Z;
  total_download_size : Z;
  last_event : gmap string value
}.

(** The code object of a caller, as [inspect] reports it. *)
Record Code : Type := {
  co_name : string;
  co_filename : string;
  co_firstlineno : Z
}.

(** What the embedding takes from outside the module: how a pyalpm
    package compares with a string when a set of packages is searched for
    a name, how numbers are formatted, and where the module is loaded
    from. *)
Class Extern : Type := {
  pkg_eq_str : Package -> string -> bool;
  format_2f : R -> string;
  format_num : R -> string;
  pac_py : string
}.

Definition M (A : Type) : Type := Pac -> result A * Pac * list effect.

Definition ret {A} (a : A) : M A := fun self => (Returned a, self, []).

Definition bind {A B} (m : M A) (k : A -> M B) : M B :=
  fun self =>
    match m self with
    | (Returned a, self', out) =>
        let '(r, self'', out') := k a self' in (r, self'', out ++ out')
    | (Raised e, self', out) => (Raised e, self', out)
    end.

#[export] Instance M_ret : MRet M := @ret.
#[export] Instance M_bind : MBind M := fun A B k m => bind m k.

Definition raise {A} (e : exn) : M A := fun self => (Raised e, self, []).

Definition emit (e : effect) : M unit := fun self => (Returned tt, self, [e]).

(** A call into pyalpm: the call takes place, then returns or raises. *)
Definition call (e : effect) (o : outcome) : M unit :=
  fun self =>
    match o with
    | None => (Returned tt, self, [e])
    | Some err => (Raised err, self, [e])
    end.

(** [logging.<lvl>(msg, *args)] on the root logger. *)
Definition logging (lvl : level) (msg : string) (args : list logarg) : M unit :=
  emit (Log lvl (AStr msg) args).

(** [logging.<lvl>(obj)] with an object that is not a string literal. *)
Definition logging_obj (lvl : level) (obj : logarg) : M unit :=
  emit (Log lvl obj []).

Definition get : M Pac := fun self => (Returned self, self, []).

Definition put (self' : Pac) : M unit := fun _ => (Returned tt, self', []).

(** [try: body except pyalpm.error as err: handler]. *)
Definition try_except {A} (body : M A) (handler : exn -> M A) : M A :=
  fun self =>
    match body self with
    | (Raised e, self', out) =>
        if is_alpm_error e
        then let '(r, self'', out') := handler e self' in (r, self'', out ++ out')
        else (Raised e, self', out)
    | res => res
    end.

(** A [for] loop that updates a local variable. *)
Fixpoint foldM {A B} (body : B -> A -> M B) (l : list A) (acc : B) : M B :=
  match l with
  | [] => mret acc
  | x :: l' => acc' ← body acc x; foldM body l' acc'
  end.

(** *** [finalize_transaction] *)

Definition finalize_transaction (transaction : Transaction) : M bool :=
  returned ← try_except
    (logging DEBUG "Prepare alpm transaction..." [];;
     call (TransPrepare (tid transaction)) (prepare transaction);;
     logging DEBUG "Commit alpm transaction..." [];;
     call (TransCommit (tid transaction)) (commit transaction);;
     mret None)
    (fun err =>
       logging ERROR "Can't finalize alpm transaction: %s" [AExn err];;
       call (TransRelease (tid transaction)) (release transaction);;
       mret (Some false));
  match returned with
  | Some res => mret res
  | None =>
      call (TransRelease (tid transaction)) (release transaction);;
      logging DEBUG "Alpm transaction done." [];;
      mret true
  end.

(** *** [init_transaction] *)

(** The options dictionary, by recognised key; [None] is an absent key. *)
Record Options : Type := {
  nodeps : option bool; dbonly : option bool; force : option bool;
  needed : option bool; mode : option Z; cascade : option bool;
  nosave : option bool; recursive : option Z; unneeded : option bool;
  downloadonly : option bool
}.

Definition no_options : Options :=
  {| nodeps := None; dbonly := None; force := None; needed := None;
     mode := None; cascade := None; nosave := None; recursive := None;
     unneeded := None; downloadonly := None |}.

Definition flags_of (options : Options) : Flags :=
  {| f_nodeps := default false (nodeps options);
     f_dbonly := default false (dbonly options);
     f_force := default false (force options);
     f_needed := default false (needed options);
     f_alldeps := bool_decide (mode options = Some PKG_REASON_DEPEND);
     f_allexplicit := bool_decide (mode options = Some PKG_REASON_EXPLICIT);
     f_cascade := default false (cascade options);
     f_nosave := default false (nosave options);
     f_recurse := 0 <? default 0 (recursive options);
     f_recurseall := 1 <? default 0 (recursive options);
     f_unneeded := default false (unneeded options);
     f_downloadonly := default false (downloadonly options) |}.

(** Returns the transaction, or [None] when pyalpm refuses to open one. *)
Definition init_transaction (options : option Options) : M (option Transaction) :=
  let options := default no_options options in
  try_except
    (self ← get;
     match handle self with
     | None => raise AttributeError
     | Some h =>
         match Alpm.init_transaction h (flags_of options) with
         | Returned t => emit (TransInit (flags_of options));; mret (Some t)
         | Raised e => emit (TransInit (flags_of options));; raise e
         end
     end)
    (fun pyalpm_error =>
       logging ERROR "Can't init alpm transaction: %s" [AExn pyalpm_error];;
       mret None).

(** *** [find_sync_package] and [get_group_pkgs] *)

(** The loop of [find_sync_package] over [syncdbs.values()]. *)
Fixpoint first_pkg (pkgname : string) (dbs : list DB) : option Package :=
  match dbs with
  | [] => None
  | database :: dbs' =>
      match get_pkg database pkgname with
      | Some pkg => Some pkg
      | None => first_pkg pkgname dbs'
      end
  end.

(** The returned tuple: [inl pkg] is [(True, pkg)], [inr msg] is
    [(False, msg)]. *)
Definition find_sync_package (pkgname : string) (syncdbs : OrderedDict DB)
  : Package + string :=
  match first_pkg pkgname (values syncdbs) with
  | Some pkg => inl pkg
  | None => inr ("Package '" +:+ pkgname +:+ "' was not found.")
  end.

Fixpoint first_grp (group : string) (dbs : list DB) : option (list Package) :=
  match dbs with
  | [] => None
  | repo :: dbs' =>
      match read_grp repo group with
      | Some (_name, pkgs) => Some pkgs
      | None => first_grp group dbs'
      end
  end.

Definition get_group_pkgs (group : string) : M (option (list Package)) :=
  self ← get;
  match handle self with
  | None => raise AttributeError
  | Some h => mret (first_grp group (get_syncdbs h))
  end.

(** *** [install] *)

Definition one_repo_groups_names : list string := ["cinnamon"; "mate"; "mate-extra"].

(** The members of the groups of [one_repo_groups_names] in the antergos
    database; a group that does not exist counts as [['None', []]]. *)
Definition one_repo_pkgs (antergos : DB) : list Package :=
  flat_map
    (fun one_repo_group_name =>
       match read_grp antergos one_repo_group_name with
       | Some grp => snd grp
       | None => []
       end)
    one_repo_groups_names.

(** [repos]: every sync database under its name, in the order of
    [get_syncdbs]. *)
Definition repos_of (syncdbs : list DB) : OrderedDict DB :=
  fold_left (fun repos syncdb => setitem (db_name syncdb) syncdb repos) syncdbs [].

(** [group_pkg.name not in conflicts], for each member of a group. *)
Definition append_unless_conflict (conflicts targets : list string) (pkgname : string)
  : list string :=
  if bool_decide (pkgname ∈ conflicts) then targets else targets ++ [pkgname].

(** The body of the first loop of [install]: one requested name. *)
Definition add_target `{Extern} (antdb repos : OrderedDict DB) (exclusive : list Package)
    (conflicts : list string) (targets : list string) (name : string)
  : M (list string) :=
  let _repos :=
    if existsb (fun pkg => pkg_eq_str pkg name) exclusive then antdb else repos in
  match find_sync_package name _repos with
  | inl pkg => mret (append_unless_conflict conflicts targets (Alpm.name pkg))
  | inr _ =>
      group_pkgs ← get_group_pkgs name;
      match group_pkgs with
      | Some group_pkgs =>
          mret (fold_left (append_unless_conflict conflicts)
                          (map Alpm.name group_pkgs) targets)
      | None =>
          logging ERROR "Can't find a package or group called '%s'" [AStr name];;
          mret targets
      end
  end.

(** The first half of [install], up to the deduplicated target list. *)
Definition install_targets `{Extern} (h : Handle) (pkgs conflicts : list string)
  : M (list string * OrderedDict DB) :=
  let pkgs := list_set pkgs in
  match List.filter (fun db => String.eqb (db_name db) "antergos") (get_syncdbs h) with
  | [] => raise IndexError
  | antergos :: _ =>
      let antdb := setitem "antergos" antergos [] in
      let repos := repos_of (get_syncdbs h) in
      targets ← foldM (add_target antdb repos (one_repo_pkgs antergos) conflicts) pkgs [];
      let targets := list_set targets in
      logging_obj DEBUG (AList targets);;
      mret (targets, repos)
  end.

Definition set_total_packages_to_download (n : Z) (self : Pac) : Pac :=
  {| callback_queue := callback_queue self; handle := handle self;
     last_dl_filename := last_dl_filename self;
     last_dl_progress := last_dl_progress self;
     last_dl_total_size := last_dl_total_size self;
     total_packages_to_download := n;
     downloaded_packages := downloaded_packages self;
     total_download_size := total_download_size self;
     last_event := last_event self |}.

(** The second loop of [install]: [targets.pop()] takes the names from
    the end of the list. *)
Definition add_pkgs (transaction : Transaction) (repos : OrderedDict DB)
    (targets : list string) : M unit :=
  foldM (fun _ name =>
           match find_sync_package name repos with
           | inl pkg => call (TransAddPkg (tid transaction) pkg) (add_pkg transaction pkg)
           | inr msg => logging_obj WARNING (AStr msg)
           end)
        (rev targets) tt.

(** The second half of [install], from the target list on. *)
Definition install_transaction (targets : list string) (repos : OrderedDict DB)
    (options : Options) : M bool :=
  if bool_decide (targets = [])
  then logging ERROR "No targets found" [];; mret false
  else
    let num_targets := Z.of_nat (length targets) in
    logging DEBUG "%d target(s) found" [AInt num_targets];;
    self ← get;
    put (set_total_packages_to_download num_targets self);;
    transaction ← init_transaction (Some options);
    match transaction with
    | None => logging ERROR "Can't initialize alpm transaction" [];; mret false
    | Some transaction =>
        add_pkgs transaction repos targets;;
        finalize_transaction transaction
    end.

Definition install `{Extern} (pkgs : list string) (conflicts : option (list string))
    (options : option Options) : M bool :=
  let conflicts := default [] conflicts in
  let options := default no_options options in
  self ← get;
  match handle self with
  | None => logging ERROR "alpm is not initialised" [];; raise (AlpmError "")
  | Some h =>
      if bool_decide (pkgs = [])
      then logging ERROR "Package list is empty" [];; raise (AlpmError "")
      else
        '(targets, repos) ← install_targets h pkgs conflicts;
        install_transaction targets repos options
  end.

(** *** [queue_event] *)

#[export] Instance R_eq_dec : EqDecision R := Req_dec_T.

#[export] Instance value_eq_dec : EqDecision value.
Proof. solve_decision. Defined.

Definition set_last_event (m : gmap string value) (self : Pac) : Pac :=
  {| callback_queue := callback_queue self; handle := handle self;
     last_dl_filename := last_dl_filename self;
     last_dl_progress := last_dl_progress self;
     last_dl_total_size := last_dl_total_size self;
     total_packages_to_download := total_packages_to_download self;
     downloaded_packages := downloaded_packages self;
     total_download_size := total_download_size self;
     last_event := m |}.

Definition set_callback_queue (q : option Queue) (self : Pac) : Pac :=
  {| callback_queue := q; handle := handle self;
     last_dl_filename := last_dl_filename self;
     last_dl_progress := last_dl_progress self;
     last_dl_total_size := last_dl_total_size self;
     total_packages_to_download := total_packages_to_download self;
     downloaded_packages := downloaded_packages self;
     total_download_size := total_download_size self;
     last_event := last_event self |}.

(** [str(event_text)], as [str.format] renders the field [{0}]. *)
Definition str `{Extern} (v : value) : string :=
  match v with
  | Str s => s
  | Num x => format_num x
  end.

(** The first lines of [queue_event]: a ['percent'] text becomes
    ["{0:.2f}".format(event_text)], which a string does not accept. *)
Definition format_event `{Extern} (event_type : string) (event_text : value)
  : result value :=
  if String.eqb event_type "percent"
  then match event_text with
       | Num x => Returned (Str (format_2f x))
       | Str _ => Raised ValueError
       end
  else Returned event_text.

(** [caller] is the code object of the calling frame, which the method
    reads through [inspect.currentframe().f_back.f_code]. *)
Definition queue_event `{Extern} (caller : Code) (event_type : string)
    (event_text : value) : M unit :=
  match format_event event_type event_text with
  | Raised e => raise e
  | Returned event_text =>
      self ← get;
      if bool_decide (last_event self !! event_type = Some event_text)
      then mret tt
      else
        put (set_last_event (<[event_type := event_text]> (last_event self)) self);;
        let event_text :=
          if String.eqb event_type "error"
          then Str (str event_text +:+ ": " +:+ co_name caller +:+ " in "
                    +:+ co_filename caller +:+ ":" +:+ pretty (co_firstlineno caller))
          else event_text in
        self ← get;
        match callback_queue self with
        | None =>
            if String.eqb event_type "error"
            then logging_obj ERROR (AVal event_text);; raise (SystemExit 1)
            else logging_obj DEBUG (AVal event_text)
        | Some q =>
            match put_nowait q (event_type, event_text) with
            | Some q' => put (set_callback_queue (Some q') self)
            | None => logging WARNING "Callback queue is full" []
            end;;
            if String.eqb event_type "error"
            then emit QueueJoin;; raise (SystemExit 1)
            else mret tt
        end
  end.

(** *** The progress callbacks *)

Definition set_total_download_size (n : Z) (self : Pac) : Pac :=
  {| callback_queue := callback_queue self; handle := handle self;
     last_dl_filename := last_dl_filename self;
     last_dl_progress := last_dl_progress self;
     last_dl_total_size := last_dl_total_size self;
     total_packages_to_download := total_packages_to_download self;
     downloaded_packages := downloaded_packages self;
     total_download_size := n;
     last_event := last_event self |}.

Definition cb_totaldl (total_size : Z) : M unit :=
  self ← get; put (set_total_download_size total_size self).

Definition code_of `{Extern} (co_name : string) (co_firstlineno : Z) : Code :=
  {| co_name := co_name; co_filename := pac_py; co_firstlineno := co_firstlineno |}.

(** [current / total] on integers: true division. *)
Definition truediv (a b : Z) : result R :=
  if b =? 0 then Raised ZeroDivisionError else Returned (IZR a / IZR b)%R.

Definition lift {A} (r : result A) : M A :=
  match r with
  | Returned a => mret a
  | Raised e => raise e
  end.

(** [_] is the identity when no translation is installed. *)
Definition cb_progress `{Extern} (target : string) (percent total current : Z) : M unit :=
  if negb (String.eqb target "")
  then
    let msg := "Installing " +:+ target +:+ " (" +:+ pretty current +:+ "/"
               +:+ pretty total +:+ ")" in
    queue_event (code_of "cb_progress" 566) "info" (Str msg);;
    percent ← lift (truediv current total);
    queue_event (code_of "cb_progress" 566) "percent" (Num percent)
  else
    percent ← lift (truediv percent 100);
    queue_event (code_of "cb_progress" 566) "percent" (Num percent).

Definition endswith (s ext : string) : bool :=
  (String.length ext <=? String.length s)%nat
  && String.eqb (substring (String.length s - String.length ext) (String.length ext) s) ext.

(** [filename[:-len(ext)]] when [filename.endswith(ext)]. The slice ends
    [len(ext)] characters before the end of the name, except that with the
    empty suffix it is [filename[:-0]], which is [filename[:0]]: the empty
    string. *)
Definition strip_ext (filename ext : string) : string :=
  if endswith filename ext
  then if (String.length ext =? 0)%nat
       then ""
       else substring 0 (String.length filename - String.length ext) filename
  else filename.

(** The progress of a stream whose size is not known:
    [(math.log(1 + transfer / 1024) ** 2 / 2) / 100]. *)
Definition unsized_progress (transfer : Z) : R :=
  ((ln (1 + IZR transfer / 1024)) ^ 2 / 2 / 100)%R.

(** The progress indicator of [cb_dl]; [math.log] rejects an argument that
    is not positive. *)
Definition dl_progress (last_dl_total_size transfer : Z) : result R :=
  if 0 <? last_dl_total_size
  then Returned (IZR transfer / IZR last_dl_total_size)%R
  else if transfer <=? -1024
       then Raised ValueError
       else Returned (unsized_progress transfer).

Definition set_last_dl (filename : option string) (total : Z) (progress : R)
    (self : Pac) : Pac :=
  {| callback_queue := callback_queue self; handle := handle self;
     last_dl_filename := filename;
     last_dl_progress := progress;
     last_dl_total_size := total;
     total_packages_to_download := total_packages_to_download self;
     downloaded_packages := downloaded_packages self;
     total_download_size := total_download_size self;
     last_event := last_event self |}.

Definition set_downloaded_packages (n : Z) (self : Pac) : Pac :=
  {| callback_queue := callback_queue self; handle := handle self;
     last_dl_filename := last_dl_filename self;
     last_dl_progress := last_dl_progress self;
     last_dl_total_size := last_dl_total_size self;
     total_packages_to_download := total_packages_to_download self;
     downloaded_packages := n;
     total_download_size := total_download_size self;
     last_event := last_event self |}.

Definition cb_dl `{Extern} (filename : string) (transfer total : Z) : M unit :=
  self ← get;
  if bool_decide (Some filename ≠ last_dl_filename self)
     || bool_decide (last_dl_total_size self ≠ total)
  then
    put (set_last_dl (Some filename) total 0%R self);;
    self ← get;
    text ←
      (if total_download_size self =? 0
       then mret ("Updating " +:+ strip_ext filename ".db" +:+ " database")
       else
         put (set_downloaded_packages (downloaded_packages self + 1) self);;
         mret ("Downloading " +:+ strip_ext filename ".pkg.tar.xz" +:+ "..."));
    queue_event (code_of "cb_dl" 577) "info" (Str text);;
    queue_event (code_of "cb_dl" 577) "percent" (Num 0%R)
  else
    progress ← lift (dl_progress (last_dl_total_size self) transfer);
    if Rgt_dec progress (last_dl_progress self)
    then
      put (set_last_dl (last_dl_filename self) (last_dl_total_size self) progress self);;
      queue_event (code_of "cb_dl" 577) "percent" (Num progress)
    else mret tt.

End Pac.

Import Pac.

(** ** Observations on a run, and the inputs of the examples *)

Module Obs.

(** How many times [release] was called on transaction [t]. *)
Definition is_release (t : nat) (e : effect) : bool :=
  match e with
  | TransRelease t' => Nat.eqb t t'
  | _ => false
  end.

Definition releases (t : nat) (out : list effect) : nat :=
  length (List.filter (is_release t) out).

(** The packages added to a transaction, in the order of the calls. *)
Definition added (out : list effect) : list Package :=
  flat_map (fun e => match e with TransAddPkg _ pkg => [pkg] | _ => [] end) out.

(** The two error records of the resolution in [install]. *)
Definition no_targets_found : effect :=
  Log ERROR (AStr "No targets found") [].

Definition cant_find (name : string) : effect :=
  Log ERROR (AStr "Can't find a package or group called '%s'") [AStr name].

(** An outcome a [try ... except pyalpm.error] deals with: the call
    returns, or raises [pyalpm.error]. *)
Definition engine_outcome (o : outcome) : Prop :=
  match o with
  | None => True
  | Some e => is_alpm_error e = true
  end.

Definition succeeded (o : outcome) : bool :=
  match o with None => true | Some _ => false end.

(** Every effect of [m] satisfies [P], and so does [Q] the value [m]
    returns, if it returns. *)
Definition emits {A} (P : effect -> Prop) (Q : A -> Prop) (m : M A) : Prop :=
  forall self r self' out,
    m self = (r, self', out) ->
    Forall P out /\ forall a, r = Returned a -> Q a.

(** An effect that shows targets shows none of [conflicts]: a logged list
    of targets, a package added to a transaction. *)
Definition no_conflict (conflicts : list string) (e : effect) : Prop :=
  match e with
  | Log _ (AList targets) _ => Forall (fun n => n ∉ conflicts) targets
  | TransAddPkg _ pkg => name pkg ∉ conflicts
  | _ => True
  end.

(** A sequence of calls of [queue_event], each with the code object of
    its caller, its kind and its text. *)
Definition run_events `{Extern} (events : list (Code * string * value)) : M unit :=
  foldM (fun _ '(caller, event_type, event_text) =>
           queue_event caller event_type event_text)
        events tt.

(** The calls of [cb_dl] for one stream: the same file name and total size,
    one call for each amount transferred. *)
Definition run_dl `{Extern} (filename : string) (total : Z) (transfers : list Z)
  : M unit :=
  foldM (fun _ transfer => cb_dl filename transfer total) transfers tt.

(** The progress values reported for a stream, following the words of the
    specification: a value is reported when it exceeds the last one
    reported, [last] at first. *)
Fixpoint reported (total : Z) (transfers : list Z) (last : R) : list R :=
  match transfers with
  | [] => []
  | transfer :: transfers' =>
      match dl_progress total transfer with
      | Returned progress =>
          if Rgt_dec progress last
          then progress :: reported total transfers' progress
          else reported total transfers' last
      | Raised _ => []
      end
  end.

(** The percent event of [cb_dl] for a progress value. *)
Definition percent_event `{Extern} (progress : R) : Code * string * value :=
  (code_of "cb_dl" 577, "percent", Num progress).

End Obs.
Import Obs.

Module Example.

(** Packages are compared with a requested name by their name. The two
    formatting functions are stand-ins: no example depends on what they
    print. *)
Definition by_name : Extern :=
  {| pkg_eq_str := fun pkg s => String.eqb (name pkg) s;
     format_2f := fun _ => "0.00";
     format_num := fun _ => "0.0";
     pac_py := "/usr/share/cnchi/src/pacman/pac.py" |}.

Definition cinnamon_community : Package :=
  {| name := "cinnamon"; version := "4.0.9-1"; db := "community" |}.

Definition cinnamon_antergos : Package :=
  {| name := "cinnamon"; version := "4.0.9-2"; db := "antergos" |}.

Definition community : DB :=
  {| db_name := "community"; pkgcache := [cinnamon_community]; grpcache := [] |}.

Definition antergos : DB :=
  {| db_name := "antergos"; pkgcache := [cinnamon_antergos];
     grpcache := [("cinnamon", [cinnamon_antergos])] |}.

Definition localdb : DB :=
  {| db_name := "local"; pkgcache := []; grpcache := [] |}.

(** A transaction on which every call succeeds, but for [prepare] and
    [commit], which do as told. *)
Definition transaction (prepare commit : outcome) : Transaction :=
  {| tid := 0; add_pkg := fun _ => None; prepare := prepare; commit := commit;
     release := None |}.

(** [community] comes before [antergos] in [pacman.conf]. *)
Definition the_handle (prepare commit : outcome) : Handle :=
  {| get_syncdbs := [community; antergos]; get_localdb := localdb;
     Alpm.init_transaction := fun _ => Returned (transaction prepare commit) |}.

(** [prepare] fails: a dependency of the target cannot be satisfied. *)
Definition unsatisfied : outcome :=
  Some (AlpmError "could not satisfy dependencies").

(** A queue of capacity one that holds an event the consumer has not
    taken yet. *)
Definition full_queue : Queue :=
  {| maxsize := 1; items := [("info", Str "Downloading linux...")];
     unfinished_tasks := 1 |}.

Definition empty_queue : Queue :=
  {| maxsize := 0; items := []; unfinished_tasks := 0 |}.

(** A caller of [queue_event] outside the module. *)
Definition a_caller : Code :=
  {| co_name := "run"; co_filename := "/usr/share/cnchi/src/installation/install.py";
     co_firstlineno := 120 |}.

Definition pac (q : option Queue) (h : option Handle) : Pac :=
  {| callback_queue := q; handle := h; last_dl_filename := None;
     last_dl_progress := 0%R; last_dl_total_size := 0;
     total_packages_to_download := 0; downloaded_packages := 0;
     total_download_size := 0; last_event := ∅ |}.

End Example.

(** ** The other methods of [Pac] *)

Module Ops.

Definition set_handle (h : option Handle) (self : Pac) : Pac :=
  {| callback_queue := callback_queue self; handle := h;
     last_dl_filename := last_dl_filename self;
     last_dl_progress := last_dl_progress self;
     last_dl_total_size := last_dl_total_size self;
     total_packages_to_download := total_packages_to_download self;
     downloaded_packages := downloaded_packages self;
     total_download_size := total_download_size self;
     last_event := last_event self |}.

(** [Pac.release]: the handle is deleted, if there is one. *)
Definition release : M unit :=
  self ← get;
  match handle self with
  | Some _ => put (set_handle None self)
  | None => mret tt
  end.

(** *** [get_packages_info] and [get_package_info] *)

Section PkgInfo.

(** [pacman.pkginfo] is not in the repository: [get_pkginfo pkg] stands
    for [pkginfo.get_pkginfo(pkg, level=2, style='sync')], and [no_info]
    for the empty dictionary. *)
Context {Info : Type} (get_pkginfo : Package -> Info) (no_info : Info).

(** The branch of [get_packages_info] without names: every package of
    every repository, under its name. *)
Definition all_packages_info (syncdbs : list DB) : gmap string Info :=
  fold_left
    (fun packages_info repo =>
       fold_left
         (fun packages_info pkg => <[name pkg := get_pkginfo pkg]> packages_info)
         (pkgcache repo) packages_info)
    syncdbs ∅.

(** The body of the loop over the names. *)
Definition add_package_info (repos : OrderedDict DB) (packages_info : gmap string Info)
    (pkg_name : string) : M (gmap string Info) :=
  match find_sync_package pkg_name repos with
  | inl pkg => mret (<[pkg_name := get_pkginfo pkg]> packages_info)
  | inr msg => logging_obj ERROR (AStr msg);; mret ∅
  end.

Definition get_packages_info (pkg_names : option (list string))
  : M (gmap string Info) :=
  let pkg_names := default [] pkg_names in
  self ← get;
  match handle self with
  | None => raise AttributeError
  | Some h =>
      if bool_decide (pkg_names = [])
      then mret (all_packages_info (get_syncdbs h))
      else foldM (add_package_info (repos_of (get_syncdbs h))) pkg_names ∅
  end.

Definition get_package_info (pkg_name : string) : M Info :=
  self ← get;
  match handle self with
  | None => raise AttributeError
  | Some h =>
      match find_sync_package pkg_name (repos_of (get_syncdbs h)) with
      | inl pkg => mret (get_pkginfo pkg)
      | inr msg => logging_obj ERROR (AStr msg);; mret no_info
      end
  end.

End PkgInfo.

(** *** [cb_event] *)

(** The event codes of [pacman.alpm_events], a module that is not in the
    repository. *)
Class AlpmEvents : Type := {
  ALPM_EVENT_CHECKDEPS_START : Z;
  ALPM_EVENT_FILECONFLICTS_START : Z;
  ALPM_EVENT_RESOLVEDEPS_START : Z;
  ALPM_EVENT_INTERCONFLICTS_START : Z;
  ALPM_EVENT_PACKAGE_OPERATION_START : Z;
  ALPM_EVENT_INTEGRITY_START : Z;
  ALPM_EVENT_LOAD_START : Z;
  ALPM_EVENT_DELTA_INTEGRITY_START : Z;
  ALPM_EVENT_DELTA_PATCHES_START : Z;
  ALPM_EVENT_DELTA_PATCH_START : Z;
  ALPM_EVENT_RETRIEVE_START : Z;
  ALPM_EVENT_DISKSPACE_START : Z;
  ALPM_EVENT_KEYRING_START : Z;
  ALPM_EVENT_KEY_DOWNLOAD_START : Z
}.

(** The items of the dictionary [events], in the order of the source. *)
Definition events_items `{AlpmEvents} : list (Z * string) :=
  [ (ALPM_EVENT_CHECKDEPS_START, "Checking dependencies...");
    (ALPM_EVENT_FILECONFLICTS_START, "Checking file conflicts...");
    (ALPM_EVENT_RESOLVEDEPS_START, "Resolving dependencies...");
    (ALPM_EVENT_INTERCONFLICTS_START, "Checking inter conflicts...");
    (ALPM_EVENT_PACKAGE_OPERATION_START, "");
    (ALPM_EVENT_INTEGRITY_START, "Checking integrity...");
    (ALPM_EVENT_LOAD_START, "Loading packages...");
    (ALPM_EVENT_DELTA_INTEGRITY_START, "Checking target delta's integrity...");
    (ALPM_EVENT_DELTA_PATCHES_START, "Applying deltas to packages...");
    (ALPM_EVENT_DELTA_PATCH_START, "Applying delta patch to target package...");
    (ALPM_EVENT_RETRIEVE_START, "Downloading files from the repository...");
    (ALPM_EVENT_DISKSPACE_START, "Checking disk space...");
    (ALPM_EVENT_KEYRING_START, "Checking keys in keyring...");
    (ALPM_EVENT_KEY_DOWNLOAD_START, "Downloading missing keys into the keyring...") ].

(** A dictionary display: of two items with the same key, the later one
    stays. *)
Definition events `{AlpmEvents} : gmap Z string :=
  fold_left (fun d item => <[fst item := snd item]> d) events_items ∅.

(** ["~" * 60]. *)
Definition tildes : string :=
  "~~~~~~~~~~~~~~~~~~~~~~~~~~~~~~~~~~~~~~~~~~~~~~~~~~~~~~~~~~~~".

Definition cb_event `{Extern} `{AlpmEvents} (event_type : Z) (event_txt : string)
  : M unit :=
  logging WARNING tildes [];;
  logging_obj WARNING (AStr event_txt);;
  logging WARNING tildes [];;
  let action := default "" (events !! event_type) in
  if negb (String.eqb action "")
  then queue_event (code_of "cb_event" 503) "info" (Str action)
  else mret tt.

(** *** [remove], [refresh] and [upgrade] *)

(** The calls into pyalpm that these three methods make and that [install]
    does not: a call is recorded next to the effects above. *)
Inductive engine_call : Type :=
| LoadPkg (tarball : string)
| RemovePkg (t : nat) (pkg : Package)
| Update (database : string) (force : bool).

(** What these calls do: [handle.load_pkg(tarball)] returns a package or
    raises, [transaction.remove_pkg(pkg)] and [database.update(force)]
    return or raise. *)
Class Engine : Type := {
  load_pkg : Handle -> string -> result Package;
  remove_pkg : Transaction -> Package -> outcome;
  update : DB -> bool -> outcome
}.

Definition M2 (A : Type) : Type :=
  Pac -> result A * Pac * list (effect + engine_call).

Definition ret2 {A} (a : A) : M2 A := fun self => (Returned a, self, []).

Definition bind2 {A B} (m : M2 A) (k : A -> M2 B) : M2 B :=
  fun self =>
    match m self with
    | (Returned a, self', out) =>
        let '(r, self'', out') := k a self' in (r, self'', out ++ out')
    | (Raised e, self', out) => (Raised e, self', out)
    end.

#[export] Instance M2_ret : MRet M2 := @ret2.
#[export] Instance M2_bind : MBind M2 := fun A B k m => bind2 m k.

(** A method modelled above, called from one of these three. *)
Definition lift2 {A} (m : M A) : M2 A :=
  fun self => let '(r, self', out) := m self in (r, self', map inl out).

Definition raise2 {A} (e : exn) : M2 A := fun self => (Raised e, self, []).

Definition get2 : M2 Pac := fun self => (Returned self, self, []).

Definition call2 (c : engine_call) (o : outcome) : M2 unit :=
  fun self =>
    match o with
    | None => (Returned tt, self, [inr c])
    | Some err => (Raised err, self, [inr c])
    end.

Fixpoint foldM2 {A B} (body : B -> A -> M2 B) (l : list A) (acc : B) : M2 B :=
  match l with
  | [] => mret acc
  | x :: l' => acc' ← body acc x; foldM2 body l' acc'
  end.

(** The first loop of [remove]: the packages of the local database, or
    the first name that it does not have. *)
Fixpoint remove_targets (database : DB) (pkg_names : list string)
    (targets : list Package) : list Package + string :=
  match pkg_names with
  | [] => inl targets
  | pkg_name :: pkg_names' =>
      match get_pkg database pkg_name with
      | None => inr pkg_name
      | Some pkg => remove_targets database pkg_names' (targets ++ [pkg])
      end
  end.

Definition remove `{Engine} (pkg_names : list string) (options : option Options)
  : M2 bool :=
  let options := default no_options options in
  self ← get2;
  match handle self with
  | None => raise2 AttributeError
  | Some h =>
      match remove_targets (get_localdb h) pkg_names [] with
      | inr pkg_name =>
          lift2 (logging ERROR "Target %s not found" [AStr pkg_name]);;
          mret false
      | inl targets =>
          transaction ← lift2 (init_transaction (Some options));
          match transaction with
          | None => lift2 (logging ERROR "Can't init transaction" []);; mret false
          | Some transaction =>
              foldM2 (fun _ pkg =>
                        lift2 (logging DEBUG
                                 "Adding package '%s' to remove transaction"
                                 [AStr (name pkg)]);;
                        call2 (RemovePkg (tid transaction) pkg)
                              (remove_pkg transaction pkg))
                     targets tt;;
              lift2 (finalize_transaction transaction)
          end
      end
  end.

Definition refresh `{Engine} : M2 bool :=
  self ← get2;
  match handle self with
  | None =>
      lift2 (logging ERROR "alpm is not initialised" []);;
      raise2 (AlpmError "")
  | Some h =>
      foldM2 (fun res database =>
                transaction ← lift2 (init_transaction None);
                match transaction with
                | Some transaction =>
                    call2 (Update (db_name database) true) (update database true);;
                    lift2 (call (TransRelease (tid transaction))
                                (Alpm.release transaction));;
                    mret res
                | None => mret false
                end)
             (get_syncdbs h) true
  end.

Definition upgrade `{Engine} (pkgs : list string) (conflicts : option (list string))
    (options : option Options) : M2 bool :=
  let options := default no_options options in
  self ← get2;
  match handle self with
  | None =>
      lift2 (logging ERROR "alpm is not initialised" []);;
      raise2 (AlpmError "")
  | Some h =>
      if bool_decide (pkgs = [])
      then lift2 (logging ERROR "Package list is empty" []);;
           raise2 (AlpmError "")
      else
        let pkgs := list_set pkgs in
        targets ←
          foldM2 (fun targets tarball =>
                    match load_pkg h tarball with
                    | Returned pkg =>
                        call2 (LoadPkg tarball) None;; mret (targets ++ [pkg])
                    | Raised e => call2 (LoadPkg tarball) (Some e);; mret targets
                    end)
                 pkgs [];
        transaction ← lift2 (init_transaction (Some options));
        match transaction with
        | None =>
            lift2 (logging ERROR "Can't initialize alpm transaction" []);;
            mret false
        | Some transaction =>
            foldM2 (fun _ pkg =>
                      lift2 (call (TransAddPkg (tid transaction) pkg)
                                  (add_pkg transaction pkg)))
                   targets tt;;
            lift2 (finalize_transaction transaction)
        end
  end.

End Ops.

(** ** Observations for the other properties *)

Module Obs2.

(** A call that leaves the instance as it found it. *)
Definition keeps_state {A} (m : M A) : Prop :=
  forall self r self' out, m self = (r, self', out) -> self' = self.

(** The effects on transactions: every effect but a logging record. *)
Definition is_log (e : effect) : bool :=
  match e with Log _ _ _ => true | _ => false end.

(** What the second loop of [install] does for a target name when
    [add_pkg] succeeds. *)
Definition add_effect (transaction : Transaction) (repos : OrderedDict DB)
    (name : string) : effect :=
  match find_sync_package name repos with
  | inl pkg => TransAddPkg (tid transaction) pkg
  | inr msg => Log WARNING (AStr msg) []
  end.

(** The package the second loop of [install] finds for a target name. *)
Definition found (repos : OrderedDict DB) (name : string) : option Package :=
  match find_sync_package name repos with
  | inl pkg => Some pkg
  | inr _ => None
  end.

(** A queue within its capacity. *)
Definition within_capacity (q : Queue) : Prop :=
  0 < maxsize q -> Z.of_nat (length (items q)) <= maxsize q.

(** The effects of [install] among the effects and calls of [remove],
    [refresh] and [upgrade]. *)
Definition effects_of (out : list (effect + Ops.engine_call)) : list effect :=
  omap (fun c => match c with inl e => Some e | inr _ => None end) out.

(** The calls of [remove_pkg], [update] and [load_pkg], in order. *)
Definition calls_of (out : list (effect + Ops.engine_call)) : list Ops.engine_call :=
  omap (fun c => match c with inl _ => None | inr c => Some c end) out.

(** How many transactions were opened. *)
Definition is_init (e : effect) : bool :=
  match e with TransInit _ => true | _ => false end.

Definition opened (out : list effect) : nat := length (List.filter is_init out).

(** The calls into pyalpm among the effects: all but the log records. *)
Definition engine_effects (out : list (effect + Ops.engine_call)) : list effect :=
  List.filter (fun e => negb (is_log e)) (effects_of out).

End Obs2.
Import Obs2.

Module Example2.

(** A repository list without [antergos]. *)
Definition core : DB :=
  {| db_name := "core";
     pkgcache := [{| name := "linux"; version := "4.19.4-1"; db := "core" |}];
     grpcache := [("base", [{| name := "linux"; version := "4.19.4-1"; db := "core" |}])] |}.

Definition vanilla_handle : Handle :=
  {| get_syncdbs := [core; Example.community]; get_localdb := Example.localdb;
     Alpm.init_transaction := fun _ => Returned (Example.transaction None None) |}.

(** A transaction that refuses every package. *)
Definition refusing : Transaction :=
  {| tid := 0; add_pkg := fun _ => Some (AlpmError "duplicate target");
     prepare := None; commit := None; Alpm.release := None |}.

Definition refusing_handle : Handle :=
  {| get_syncdbs := [Example.community; Example.antergos];
     get_localdb := Example.localdb;
     Alpm.init_transaction := fun _ => Returned refusing |}.

(** The engine is busy: no transaction can be opened. *)
Definition locked_handle : Handle :=
  {| get_syncdbs := [Example.community; Example.antergos];
     get_localdb := Example.localdb;
     Alpm.init_transaction :=
       fun _ => Raised (AlpmError "unable to lock database") |}.

(** Event codes, all different. *)
Definition event_codes : Ops.AlpmEvents :=
  {| Ops.ALPM_EVENT_CHECKDEPS_START := 1;
     Ops.ALPM_EVENT_FILECONFLICTS_START := 3;
     Ops.ALPM_EVENT_RESOLVEDEPS_START := 5;
     Ops.ALPM_EVENT_INTERCONFLICTS_START := 7;
     Ops.ALPM_EVENT_PACKAGE_OPERATION_START := 9;
     Ops.ALPM_EVENT_INTEGRITY_START := 11;
     Ops.ALPM_EVENT_LOAD_START := 13;
     Ops.ALPM_EVENT_DELTA_INTEGRITY_START := 15;
     Ops.ALPM_EVENT_DELTA_PATCHES_START := 17;
     Ops.ALPM_EVENT_DELTA_PATCH_START := 19;
     Ops.ALPM_EVENT_RETRIEVE_START := 24;
     Ops.ALPM_EVENT_DISKSPACE_START := 29;
     Ops.ALPM_EVENT_KEYRING_START := 33;
     Ops.ALPM_EVENT_KEY_DOWNLOAD_START := 35 |}.

(** An engine on which every one of these calls succeeds, but that cannot
    read the archive [broken.pkg.tar.xz]. *)
Definition engine : Ops.Engine :=
  {| Ops.load_pkg := fun _ tarball =>
       if String.eqb tarball "broken.pkg.tar.xz"
       then Raised (AlpmError "cannot open package file")
       else Returned {| name := tarball; version := "1"; db := "" |};
     Ops.remove_pkg := fun _ _ => None;
     Ops.update := fun _ _ => None |}.

(** An engine for which the mirror of [antergos] is out of reach. *)
Definition offline : Ops.Engine :=
  {| Ops.load_pkg := fun _ tarball =>
       Returned {| name := tarball; version := "1"; db := "" |};
     Ops.remove_pkg := fun _ _ => None;
     Ops.update := fun database _ =>
       if String.eqb (db_name database) "antergos"
       then Some (AlpmError "failed to retrieve some files")
       else None |}.

(** A queue of capacity one with nothing in it: what the consumer leaves
    when it has taken the only event, [get()] and then [task_done()]. *)
Definition small_queue : Queue :=
  {| maxsize := 1; items := []; unfinished_tasks := 0 |}.

Definition installed : DB :=
  {| db_name := "local";
     pkgcache := [{| name := "linux"; version := "4.19.4-1"; db := "local" |}];
     grpcache := [] |}.

Definition installed_handle : Handle :=
  {| get_syncdbs := [Example.community; Example.antergos];
     get_localdb := installed;
     Alpm.init_transaction := fun _ => Returned (Example.transaction None None) |}.

(** An engine that cannot remove anything. *)
Definition held : Ops.Engine :=
  {| Ops.load_pkg := fun _ tarball =>
       Returned {| name := tarball; version := "1"; db := "" |};
     Ops.remove_pkg := fun _ _ => Some (AlpmError "could not remove package");
     Ops.update := fun _ _ => None |}.

(** The local database of [installed_handle], locked. *)
Definition locked_local : Handle :=
  {| get_syncdbs := [Example.community; Example.antergos];
     get_localdb := installed;
     Alpm.init_transaction :=
       fun _ => Raised (AlpmError "unable to lock database") |}.

End Example2.

(** ** The monad: how results and effects compose *)

Section Monad.

Context {A B : Type}.

Lemma bind_returned (m : M A) (k : A -> M B) self a self1 out1 :
  m self = (Returned a, self1, out1) ->
  (m ≫= k) self = let '(r, self2, out2) := k a self1 in (r, self2, out1 ++ out2).
Proof. intros Hm. unfold mbind, M_bind, bind. now rewrite Hm. Qed.

Lemma bind_raised (m : M A) (k : A -> M B) self e self1 out1 :
  m self = (Raised e, self1, out1) ->
  (m ≫= k) self = (Raised e, self1, out1).
Proof. intros Hm. unfold mbind, M_bind, bind. now rewrite Hm. Qed.

Lemma bind_inv (m : M A) (k : A -> M B) self r self2 out :
  (m ≫= k) self = (r, self2, out) ->
  (exists a self1 out1 out2,
      m self = (Returned a, self1, out1) /\ k a self1 = (r, self2, out2)
      /\ out = out1 ++ out2)
  \/ (exists e, m self = (Raised e, self2, out) /\ r = Raised e).
Proof.
  unfold mbind, M_bind, bind.
  destruct (m self) as [[[a | e] self1] out1] eqn:Hm.
  - destruct (k a self1) as [[r' self'] out2] eqn:Hk.
    intros [= <- <- <-]. left. now exists a, self1, out1, out2.
  - intros [= <- <- <-]. right. now exists e.
Qed.

End Monad.

(** ** [find_sync_package]: the first database that has the name wins *)

Lemma first_pkg_first pkgname (dbs : list DB) (i : nat) database pkg :
  dbs !! i = Some database ->
  get_pkg database pkgname = Some pkg ->
  (forall (k : nat) dk, (k < i)%nat -> dbs !! k = Some dk -> get_pkg dk pkgname = None) ->
  first_pkg pkgname dbs = Some pkg.
Proof.
  revert i. induction dbs as [| d dbs IH]; intros i Hi Hpkg Hbefore.
  - discriminate.
  - destruct i as [| i]; simpl in *.
    + injection Hi as ->. now rewrite Hpkg.
    + rewrite (Hbefore 0%nat d) by (simpl; auto; lia).
      apply (IH i); auto.
      intros k dk Hk Hdk. apply (Hbefore (S k)); simpl; auto; lia.
Qed.

Lemma first_pkg_none pkgname (dbs : list DB) :
  first_pkg pkgname dbs = None <-> Forall (fun d => get_pkg d pkgname = None) dbs.
Proof.
  induction dbs as [| d dbs IH]; simpl.
  - split; auto.
  - destruct (get_pkg d pkgname) eqn:Hd.
    + split; [discriminate |]. intros Hall. inversion Hall; congruence.
    + rewrite IH. split.
      * intros Hall. now constructor.
      * intros Hall. now inversion Hall.
Qed.

(** C4. Let [i] be the first index, in the order of [syncdbs], of a
    database that has [pkgname], whatever the databases after it hold:
    [find_sync_package] answers [(True, pkg)] with the package of that
    database. It answers [(False, message)] exactly when no database has
    the name. *)
Theorem find_sync_package_priority pkgname (syncdbs : OrderedDict DB) :
  (forall (i : nat) database pkg,
      values syncdbs !! i = Some database ->
      get_pkg database pkgname = Some pkg ->
      (forall (k : nat) dk,
          (k < i)%nat -> values syncdbs !! k = Some dk -> get_pkg dk pkgname = None) ->
      find_sync_package pkgname syncdbs = inl pkg)
  /\ (forall msg,
         find_sync_package pkgname syncdbs = inr msg <->
         msg = "Package '" +:+ pkgname +:+ "' was not found."
         /\ Forall (fun d => get_pkg d pkgname = None) (values syncdbs)).
Proof.
  unfold find_sync_package. split.
  - intros i database pkg Hi Hpkg Hbefore.
    now rewrite (first_pkg_first _ _ _ _ _ Hi Hpkg Hbefore).
  - intros msg. rewrite <- first_pkg_none.
    destruct (first_pkg pkgname (values syncdbs)).
    + split; [discriminate | intros [_ [=]]].
    + split; [intros [= <-]; auto | intros [-> _]; auto].
Qed.

(** The witness: with [community] before [antergos] and the name in both,
    the package of [community] is returned. *)
Lemma find_sync_package_priority_witness :
  find_sync_package "cinnamon"
    (repos_of [Example.community; Example.antergos])
  = inl Example.cinnamon_community.
Proof.
  apply (proj1 (find_sync_package_priority "cinnamon"
                  (repos_of [Example.community; Example.antergos]))
           0%nat Example.community Example.cinnamon_community).
  - reflexivity.
  - reflexivity.
  - intros k dk Hk. lia.
Defined.

(** ** [finalize_transaction]: the transaction is released once *)

(** C2. When [prepare] and [commit] each return or raise [pyalpm.error],
    [finalize_transaction] calls [release] on the transaction exactly once:
    after a successful [commit], after a failed [prepare], after a failed
    [commit]. Unless [release] itself raises, the call returns whether both
    steps succeeded, so [False] after either error. *)
Theorem finalize_transaction_releases_once (transaction : Transaction) (self : Pac) :
  engine_outcome (prepare transaction) ->
  engine_outcome (commit transaction) ->
  let '(r, self', out) := finalize_transaction transaction self in
  releases (tid transaction) out = 1%nat
  /\ self' = self
  /\ r = match release transaction with
         | Some e => Raised e
         | None => Returned (succeeded (prepare transaction)
                             && succeeded (commit transaction))
         end.
Proof.
  destruct transaction as [t add [ep |] [ec |] [er |]]; simpl;
    intros Hp Hc;
    try (destruct ep; try discriminate Hp);
    try (destruct ec; try discriminate Hc);
    cbv -[Nat.eqb]; rewrite Nat.eqb_refl; auto.
Qed.

(** The witness: [commit] fails on conflicting files. *)
Lemma finalize_transaction_releases_once_witness :
  let tx := Example.transaction None (Some (AlpmError "conflicting files")) in
  let '(r, self', out) :=
    finalize_transaction tx (Example.pac None None) in
  releases 0 out = 1%nat /\ self' = Example.pac None None /\ r = Returned false.
Proof.
  exact (finalize_transaction_releases_once
           (Example.transaction None (Some (AlpmError "conflicting files")))
           (Example.pac None None) I eq_refl).
Defined.

(** An exception that is not [pyalpm.error] passes through
    [finalize_transaction], and then the transaction is not released. *)
Lemma finalize_transaction_other_exception (transaction : Transaction) (self : Pac) e :
  prepare transaction = Some e ->
  is_alpm_error e = false ->
  let '(r, _, out) := finalize_transaction transaction self in
  r = Raised e /\ releases (tid transaction) out = 0%nat.
Proof.
  destruct transaction as [t add p c rl]; simpl. intros -> He.
  destruct e; try discriminate He; cbv; auto.
Qed.

(** ** What a call emits *)

Section Emits.

Context {A B : Type} (P : effect -> Prop).

Lemma emits_ret (Q : A -> Prop) a : Q a -> emits P Q (mret a).
Proof. intros HQ self r self' out [= <- <- <-]. split; [constructor | now intros ? [= <-]]. Qed.

Lemma emits_raise (Q : A -> Prop) e : emits P Q (raise e).
Proof. intros self r self' out [= <- <- <-]. split; [constructor | discriminate]. Qed.

Lemma emits_emit (Q : unit -> Prop) e : P e -> Q tt -> emits P Q (emit e).
Proof.
  intros HP HQ self r self' out [= <- <- <-].
  split; [repeat constructor; auto | now intros [] _].
Qed.

Lemma emits_call (Q : unit -> Prop) e o : P e -> Q tt -> emits P Q (call e o).
Proof.
  intros HP HQ self r self' out. unfold call.
  destruct o; intros [= <- <- <-];
    (split; [repeat constructor; auto | try discriminate; now intros [] _]).
Qed.

Lemma emits_get (Q : Pac -> Prop) : (forall self, Q self) -> emits P Q get.
Proof. intros HQ self r self' out [= <- <- <-]. split; [constructor | now intros ? [= <-]]. Qed.

Lemma emits_put (Q : unit -> Prop) s : Q tt -> emits P Q (put s).
Proof. intros HQ self r self' out [= <- <- <-]. split; [constructor | now intros [] _]. Qed.

Lemma emits_bind (Q : A -> Prop) (Q' : B -> Prop) (m : M A) (k : A -> M B) :
  emits P Q m -> (forall a, Q a -> emits P Q' (k a)) -> emits P Q' (m ≫= k).
Proof.
  intros Hm Hk self r self' out Hrun.
  apply bind_inv in Hrun as [(a & self1 & out1 & out2 & H1 & H2 & ->) | (e & H1 & ->)].
  - destruct (Hm _ _ _ _ H1) as [HP1 HQ1].
    destruct (Hk a (HQ1 a eq_refl) _ _ _ _ H2) as [HP2 HQ2].
    split; [apply Forall_app; auto | auto].
  - destruct (Hm _ _ _ _ H1) as [HP1 _]. split; [auto | discriminate].
Qed.

Lemma emits_try_except (Q : A -> Prop) (body : M A) handler :
  emits P Q body -> (forall e, emits P Q (handler e)) ->
  emits P Q (try_except body handler).
Proof.
  intros Hb Hh self r self' out. unfold try_except.
  destruct (body self) as [[[a | e] self1] out1] eqn:Hbody.
  - intros [= <- <- <-]. exact (Hb _ _ _ _ Hbody).
  - destruct (Hb _ _ _ _ Hbody) as [HP1 _].
    destruct (is_alpm_error e).
    + destruct (handler e self1) as [[r2 self2] out2] eqn:Hhandler.
      intros [= <- <- <-]. destruct (Hh e _ _ _ _ Hhandler) as [HP2 HQ2].
      split; [apply Forall_app; auto | auto].
    + intros [= <- <- <-]. split; [auto | discriminate].
Qed.

Lemma emits_weaken (Q Q' : A -> Prop) (m : M A) :
  emits P Q m -> (forall a, Q a -> Q' a) -> emits P Q' m.
Proof.
  intros Hm HQ self r self' out Hrun. destruct (Hm _ _ _ _ Hrun) as [HP H1].
  split; auto.
Qed.

End Emits.

Lemma emits_foldM {A B} (P : effect -> Prop) (I : B -> Prop) (body : B -> A -> M B) (l : list A) acc :
  (forall acc x, x ∈ l -> I acc -> emits P I (body acc x)) ->
  I acc -> emits P I (foldM body l acc).
Proof.
  revert acc. induction l as [| x l IH]; intros acc Hbody Hacc; simpl.
  - now apply emits_ret.
  - apply emits_bind with (Q := I).
    + apply Hbody; [left | auto].
    + intros acc' Hacc'. apply IH; auto.
      intros acc'' y Hy. apply Hbody. now right.
Qed.

Lemma emits_logging (P : effect -> Prop) (Q : unit -> Prop) lvl msg args :
  P (Log lvl (AStr msg) args) -> Q tt -> emits P Q (logging lvl msg args).
Proof. apply emits_emit. Qed.

Lemma emits_logging_obj (P : effect -> Prop) (Q : unit -> Prop) lvl obj :
  P (Log lvl obj []) -> Q tt -> emits P Q (logging_obj lvl obj).
Proof. apply emits_emit. Qed.

(** One statement of a method: what it emits, then the rest. *)
Ltac emits_step :=
  apply emits_bind with (Q := fun _ => True); [| intros ? _].

Tactic Notation "emits_step" "as" simple_intropattern(x) :=
  apply emits_bind with (Q := fun _ => True); [| intros x _].

Ltac emits_leaf :=
  first [ apply emits_logging; [| exact I]
        | apply emits_logging_obj; [| exact I]
        | apply emits_call; [| exact I]
        | apply emits_emit; [| exact I]
        | apply emits_put; exact I
        | apply emits_get; intros; exact I
        | apply emits_raise
        | apply emits_ret; exact I ].

Lemma emits_init_transaction (P : effect -> Prop) options :
  (forall flags, P (TransInit flags)) ->
  (forall lvl msg args, msg <> "No targets found" -> P (Log lvl (AStr msg) args)) ->
  emits P (fun _ => True) (Pac.init_transaction options).
Proof.
  intros Hinit Hlog. unfold Pac.init_transaction.
  apply emits_try_except.
  - emits_step as self; [emits_leaf |].
    destruct (handle self) as [h |]; [| emits_leaf].
    destruct (Alpm.init_transaction h _).
    + emits_step; [emits_leaf; apply Hinit | emits_leaf].
    + emits_step; [emits_leaf; apply Hinit | emits_leaf].
  - intros e. emits_step; [emits_leaf; apply Hlog; discriminate | emits_leaf].
Qed.

Lemma emits_finalize_transaction (P : effect -> Prop) transaction :
  P (TransPrepare (tid transaction)) ->
  P (TransCommit (tid transaction)) ->
  P (TransRelease (tid transaction)) ->
  (forall lvl msg args, msg <> "No targets found" -> P (Log lvl (AStr msg) args)) ->
  emits P (fun _ => True) (finalize_transaction transaction).
Proof.
  intros Hp Hc Hr Hlog. unfold finalize_transaction.
  emits_step as returned.
  - apply emits_try_except.
    + emits_step; [emits_leaf; apply Hlog; discriminate |].
      emits_step; [emits_leaf; apply Hp |].
      emits_step; [emits_leaf; apply Hlog; discriminate |].
      emits_step; [emits_leaf; apply Hc |].
      emits_leaf.
    + intros e.
      emits_step; [emits_leaf; apply Hlog; discriminate |].
      emits_step; [emits_leaf; apply Hr |].
      emits_leaf.
  - destruct returned as [res |]; [emits_leaf |].
    emits_step; [emits_leaf; apply Hr |].
    emits_step; [emits_leaf; apply Hlog; discriminate |].
    emits_leaf.
Qed.

(** ** [install]: the targets avoid the conflicts *)

Lemma list_set_elem (l : list string) n : n ∈ list_set l <-> n ∈ l.
Proof. unfold list_set. now rewrite elem_of_elements, elem_of_list_to_set. Qed.

Lemma append_unless_conflict_ok conflicts targets pkgname :
  Forall (fun n => n ∉ conflicts) targets ->
  Forall (fun n => n ∉ conflicts) (append_unless_conflict conflicts targets pkgname).
Proof.
  intros Hall. unfold append_unless_conflict. case_bool_decide; [auto |].
  apply Forall_app. split; [auto | now repeat constructor].
Qed.

Lemma append_group_ok conflicts names targets :
  Forall (fun n => n ∉ conflicts) targets ->
  Forall (fun n => n ∉ conflicts)
         (fold_left (append_unless_conflict conflicts) names targets).
Proof.
  revert targets. induction names as [| n names IH]; intros targets Hall; simpl.
  - auto.
  - apply IH. now apply append_unless_conflict_ok.
Qed.

Lemma emits_get_group_pkgs (P : effect -> Prop) group :
  emits P (fun _ => True) (get_group_pkgs group).
Proof.
  unfold get_group_pkgs. emits_step as self; [emits_leaf |].
  destruct (handle self); emits_leaf.
Qed.

Lemma emits_add_target `{Extern} (P : effect -> Prop) antdb repos exclusive
    conflicts targets name :
  (forall lvl msg args, msg <> "No targets found" -> P (Log lvl (AStr msg) args)) ->
  Forall (fun n => n ∉ conflicts) targets ->
  emits P (Forall (fun n => n ∉ conflicts))
        (add_target antdb repos exclusive conflicts targets name).
Proof.
  intros Hlog Hall. unfold add_target.
  destruct (find_sync_package name _) as [pkg | msg].
  - apply emits_ret. now apply append_unless_conflict_ok.
  - apply emits_bind with (Q := fun _ => True); [apply emits_get_group_pkgs |].
    intros [group_pkgs |] _.
    + apply emits_ret. now apply append_group_ok.
    + emits_step; [emits_leaf; apply Hlog; discriminate | now apply emits_ret].
Qed.

Lemma emits_install_targets `{Extern} (P : effect -> Prop) h pkgs conflicts :
  (forall lvl msg args, msg <> "No targets found" -> P (Log lvl (AStr msg) args)) ->
  (forall targets,
      Forall (fun n => n ∉ conflicts) targets -> P (Log DEBUG (AList targets) [])) ->
  emits P (fun res => Forall (fun n => n ∉ conflicts) (fst res)
                      /\ snd res = repos_of (get_syncdbs h))
        (install_targets h pkgs conflicts).
Proof.
  intros Hlog Hlist. unfold install_targets.
  destruct (List.filter _ (get_syncdbs h)) as [| antergos others]; [apply emits_raise |].
  apply emits_bind with (Q := Forall (fun n => n ∉ conflicts)).
  - apply emits_foldM; [| constructor].
    intros acc x _ Hacc. now apply emits_add_target.
  - intros targets Htargets.
    assert (Hset : Forall (fun n => n ∉ conflicts) (list_set targets)).
    { rewrite Forall_forall in *. intros n Hn. apply Htargets.
      now apply list_set_elem. }
    emits_step; [emits_leaf; now apply Hlist |].
    now apply emits_ret.
Qed.

Lemma first_pkg_name pkgname dbs pkg :
  first_pkg pkgname dbs = Some pkg -> name pkg = pkgname.
Proof.
  induction dbs as [| d dbs IH]; simpl; [discriminate |].
  destruct (get_pkg d pkgname) as [p |] eqn:Hd; [| auto].
  intros [= ->]. unfold get_pkg in Hd.
  apply find_some in Hd as [_ Hname]. now apply String.eqb_eq.
Qed.

Lemma find_sync_package_name pkgname syncdbs pkg :
  find_sync_package pkgname syncdbs = inl pkg -> name pkg = pkgname.
Proof.
  unfold find_sync_package.
  destruct (first_pkg pkgname (values syncdbs)) eqn:Hfirst; [| discriminate].
  intros [= <-]. eapply first_pkg_name, Hfirst.
Qed.

Lemma emits_install_transaction (P : effect -> Prop) targets repos options :
  (forall lvl msg args, msg <> "No targets found" -> P (Log lvl (AStr msg) args)) ->
  (forall msg, P (Log WARNING (AStr msg) [])) ->
  (targets = [] -> P no_targets_found) ->
  (forall flags, P (TransInit flags)) ->
  (forall t, P (TransPrepare t) /\ P (TransCommit t) /\ P (TransRelease t)) ->
  (forall t pkg, name pkg ∈ targets -> P (TransAddPkg t pkg)) ->
  emits P (fun _ => True) (install_transaction targets repos options).
Proof.
  intros Hlog Hwarn Hnone Hinit Htrans Hadd. unfold install_transaction.
  case_bool_decide.
  { emits_step; [emits_leaf; now apply Hnone | emits_leaf]. }
  emits_step; [emits_leaf; now apply Hlog |].
  emits_step; [emits_leaf |].
  emits_step; [emits_leaf |].
  emits_step as transaction.
  { apply emits_init_transaction; [apply Hinit | apply Hlog]. }
  destruct transaction as [transaction |].
  2: { emits_step; [emits_leaf; now apply Hlog | emits_leaf]. }
  emits_step.
  { unfold add_pkgs. apply emits_foldM; [| exact I].
    intros [] name Hname _.
    destruct (find_sync_package name repos) as [pkg | msg] eqn:Hfind.
    - emits_leaf. apply Hadd. rewrite (find_sync_package_name _ _ _ Hfind).
      apply list_elem_of_In. apply list_elem_of_In in Hname. now apply in_rev.
    - emits_leaf. apply Hwarn. }
  apply emits_finalize_transaction; try apply Htrans. apply Hlog.
Qed.

(** C3. Whatever the requested names, the databases and the conflicts
    list: the deduplicated target list that the first half of [install]
    builds has no name of the conflicts list; and so in a call of
    [install], neither the target list it logs nor a package it adds to the
    transaction has a name of the conflicts list. *)
Theorem install_targets_avoid_conflicts `{Extern} (pkgs : list string)
    (conflicts : option (list string)) (options : option Options) (self : Pac) :
  (forall h,
      let '(r, _, _) := install_targets h pkgs (default [] conflicts) self in
      forall targets repos,
        r = Returned (targets, repos) ->
        forall n, n ∈ targets -> n ∉ default [] conflicts)
  /\ (let '(_, _, out) := install pkgs conflicts options self in
      Forall (no_conflict (default [] conflicts)) out).
Proof.
  split.
  - intros h.
    destruct (install_targets h pkgs (default [] conflicts) self)
      as [[r self'] out] eqn:Hrun.
    intros targets repos -> n Hn.
    apply (emits_install_targets (fun _ => True)) in Hrun as [_ Hres]; auto.
    destruct (Hres _ eq_refl) as [Hall _]. simpl in Hall.
    rewrite Forall_forall in Hall. now apply Hall.
  - destruct (install pkgs conflicts options self) as [[r self'] out] eqn:Hrun.
    cut (emits (no_conflict (default [] conflicts)) (fun _ : bool => True)
               (install pkgs conflicts options)).
    { intros Hemits. now destruct (Hemits _ _ _ _ Hrun). }
    clear Hrun. unfold install.
    assert (Hlog : forall lvl msg args,
               msg <> "No targets found" ->
               no_conflict (default [] conflicts) (Log lvl (AStr msg) args))
      by (intros; exact I).
    emits_step as self0; [emits_leaf |].
    destruct (handle self0) as [h |].
    2: { emits_step; [emits_leaf; exact I | emits_leaf]. }
    case_bool_decide.
    { emits_step; [emits_leaf; exact I | emits_leaf]. }
    eapply emits_bind.
    { apply emits_install_targets; [apply Hlog | auto]. }
    intros [targets repos] [Htargets _]. simpl in Htargets.
    apply emits_install_transaction; try (intros; exact I).
    { intros t. repeat split. }
    intros t pkg Hpkg. simpl. rewrite Forall_forall in Htargets. now apply Htargets.
Qed.

(** The witness: [cinnamon] is requested and is also in the conflicts
    list, next to a name that no database knows. *)
Lemma install_targets_avoid_conflicts_witness :
  let self := Example.pac None (Some (Example.the_handle None None)) in
  Forall (no_conflict ["cinnamon"])
         (snd (@install Example.by_name ["cinnamon"; "no-such-package"]
                 (Some ["cinnamon"]) None self)).
Proof.
  intros self.
  pose proof (proj2 (@install_targets_avoid_conflicts Example.by_name
                       ["cinnamon"; "no-such-package"] (Some ["cinnamon"]) None self))
    as Hout.
  vm_compute in Hout. vm_compute. exact Hout.
Defined.

(** ** [install]: where the package of an exclusive name comes from *)

(** C1, the code at the failing input. [community] comes before [antergos]
    and both have [cinnamon], which is a member of the group [cinnamon] of
    [antergos]. The first loop looks the name up in [antergos] alone, but
    it keeps the name only; the second loop looks the name up again in all
    the databases, and the package added to the transaction is the one of
    [community]. This holds however packages compare with names. *)
Theorem install_exclusive_name_added_from_other_repo {E : Extern} :
  existsb (fun pkg => @pkg_eq_str Example.by_name pkg "cinnamon")
          (one_repo_pkgs Example.antergos) = true
  /\ find_sync_package "cinnamon" (setitem "antergos" Example.antergos [])
     = inl Example.cinnamon_antergos
  /\ (let '(r, _, out) :=
        install ["cinnamon"] None None
                (Example.pac None (Some (Example.the_handle None None))) in
      r = Returned true
      /\ added out = [Example.cinnamon_community]
      /\ db Example.cinnamon_community = "community").
Proof.
  split; [reflexivity |]. split; [reflexivity |].
  destruct E as [eq_str f2 fnum file]. vm_compute.
  destruct (eq_str _ _); auto.
Qed.

(** ** [install]: when the call fails for want of targets *)

Lemma get_bind {B} (k : Pac -> M B) self : (get ≫= k) self = k self self.
Proof.
  unfold mbind, M_bind, bind, get. now destruct (k self self) as [[r self'] out].
Qed.

Lemma add_target_unresolved `{Extern} antdb repos exclusive conflicts targets name
    self h msg :
  handle self = Some h ->
  find_sync_package name
    (if existsb (fun pkg => pkg_eq_str pkg name) exclusive then antdb else repos)
  = inr msg ->
  first_grp name (get_syncdbs h) = None ->
  add_target antdb repos exclusive conflicts targets name self
  = (Returned targets, self, [cant_find name]).
Proof.
  intros Hhandle Hfind Hgrp. unfold add_target. rewrite Hfind.
  unfold get_group_pkgs. unfold mbind at 1. unfold M_bind, bind.
  rewrite get_bind, Hhandle. simpl. now rewrite Hgrp.
Qed.

(** C5, the claim as it stands, at a concrete input: the target list is
    [cinnamon], and [install] returns [False], because [prepare] fails. *)
Lemma install_false_with_targets :
  let h := Example.the_handle Example.unsatisfied None in
  let self := Example.pac None (Some h) in
  fst (fst (@install_targets Example.by_name h ["cinnamon"] [] self))
  = Returned (["cinnamon"], repos_of [Example.community; Example.antergos])
  /\ fst (fst (@install Example.by_name ["cinnamon"] None None self))
     = Returned false.
Proof. split; reflexivity. Qed.

(** C5, amended. Once the resolution of a call of [install] has returned
    its deduplicated target list, the call fails with the error
    [No targets found] - it returns [False], having done nothing after the
    resolution but log that error - exactly when the target list is empty.
    And a name that is neither a package nor a group is logged and skipped:
    the loop goes on with the remaining names as it would without it. *)
Theorem install_no_targets_iff `{Extern} (pkgs : list string)
    (conflicts : option (list string)) (options : option Options)
    (self : Pac) (h : Handle) :
  handle self = Some h ->
  pkgs <> [] ->
  (forall targets repos self1 out1,
      install_targets h pkgs (default [] conflicts) self
      = (Returned (targets, repos), self1, out1) ->
      let '(r, self', out) := install pkgs conflicts options self in
      (targets = [] <-> r = Returned false /\ no_targets_found ∈ out)
      /\ (targets = [] -> self' = self1 /\ out = out1 ++ [no_targets_found]))
  /\ (forall antdb repos exclusive cs targets name rest msg,
         find_sync_package name
           (if existsb (fun pkg => pkg_eq_str pkg name) exclusive
            then antdb else repos) = inr msg ->
         first_grp name (get_syncdbs h) = None ->
         foldM (add_target antdb repos exclusive cs) (name :: rest) targets self
         = let '(r, self', out) :=
             foldM (add_target antdb repos exclusive cs) rest targets self in
           (r, self', cant_find name :: out)).
Proof.
  intros Hhandle Hpkgs. split.
  - intros targets repos self1 out1 Htargets.
    unfold install. rewrite get_bind, Hhandle.
    rewrite bool_decide_eq_false_2 by assumption.
    rewrite (bind_returned _ _ _ _ _ _ Htargets).
    destruct (decide (targets = [])) as [-> | Hne].
    + simpl. split; [| auto]. split; [| auto].
      intros _. split; [reflexivity |].
      apply elem_of_app. right. now left.
    + destruct (install_transaction targets repos (default no_options options) self1)
        as [[r self'] out2] eqn:Hrest.
      apply (emits_install_transaction (fun e => e <> no_targets_found)) in Hrest
        as [Hout2 _]; try discriminate; try contradiction.
      2: { unfold no_targets_found. congruence. }
      2: { intros t. repeat split; discriminate. }
      apply (emits_install_targets (fun e => e <> no_targets_found)) in Htargets
        as [Hout1 _].
      2: { unfold no_targets_found; congruence. }
      2: { discriminate. }
      split; [| contradiction]. split; [contradiction |].
      intros [_ Hin]. exfalso.
      apply elem_of_app in Hin as [Hin | Hin].
      * rewrite Forall_forall in Hout1. now apply (Hout1 _ Hin).
      * rewrite Forall_forall in Hout2. now apply (Hout2 _ Hin).
  - intros antdb repos exclusive cs targets name rest msg Hfind Hgrp.
    simpl foldM.
    now rewrite (bind_returned _ _ _ _ _ _
                   (add_target_unresolved antdb repos exclusive cs targets name
                      self h msg Hhandle Hfind Hgrp)).
Qed.

(** The witness: the only requested name is unknown to every database. *)
Lemma install_no_targets_iff_witness :
  let h := Example.the_handle None None in
  let self := Example.pac None (Some h) in
  let '(r, _, out) := @install Example.by_name ["no-such-package"] None None self in
  r = Returned false /\ no_targets_found ∈ out.
Proof.
  intros h self.
  pose proof (@install_no_targets_iff Example.by_name ["no-such-package"] None None
                self h eq_refl ltac:(discriminate)) as [Hiff _].
  specialize (Hiff [] (repos_of [Example.community; Example.antergos]) self
                [cant_find "no-such-package"; Log DEBUG (AList []) []] eq_refl).
  destruct (@install Example.by_name ["no-such-package"] None None self)
    as [[r self'] out].
  destruct Hiff as [[Hempty _] _]. exact (Hempty eq_refl).
Defined.

(** ** [queue_event]: an event is not queued twice in a row *)

Ltac run_monad :=
  unfold mbind, M_bind, bind, get, put, logging_obj, logging, emit, raise, mret,
    M_ret, ret, lift; simpl.

Lemma queue_event_suppressed `{Extern} caller event_type event_text v self :
  format_event event_type event_text = Returned v ->
  last_event self !! event_type = Some v ->
  queue_event caller event_type event_text self = (Returned tt, self, []).
Proof.
  intros Hfmt Hlast. unfold queue_event. rewrite Hfmt.
  rewrite get_bind. now rewrite bool_decide_eq_true_2.
Qed.

Lemma queue_event_last_event `{Extern} caller event_type event_text self r self' out :
  queue_event caller event_type event_text self = (r, self', out) ->
  match format_event event_type event_text with
  | Returned v => last_event self' !! event_type = Some v
  | Raised e => r = Raised e /\ self' = self /\ out = []
  end.
Proof.
  unfold queue_event.
  destruct (format_event event_type event_text) as [v | e]; [| now intros [= <- <- <-]].
  rewrite get_bind. case_bool_decide as Hlast; [now intros [= <- <- <-] |].
  run_monad.
  destruct (callback_queue self) as [q |]; simpl.
  - destruct (put_nowait q _); simpl;
      destruct (String.eqb event_type "error"); simpl;
      intros [= <- <- <-]; simpl; apply lookup_insert_eq.
  - destruct (String.eqb event_type "error"); simpl;
      intros [= <- <- <-]; simpl; apply lookup_insert_eq.
Qed.

Lemma queue_event_other_kind `{Extern} caller event_type event_text self r self' out kind :
  queue_event caller event_type event_text self = (r, self', out) ->
  event_type <> kind ->
  last_event self' !! kind = last_event self !! kind.
Proof.
  unfold queue_event. intros Hrun Hne. revert Hrun.
  destruct (format_event event_type event_text) as [v | e]; [| now intros [= <- <- <-]].
  rewrite get_bind. case_bool_decide as Hlast; [now intros [= <- <- <-] |].
  run_monad.
  destruct (callback_queue self) as [q |]; simpl.
  - destruct (put_nowait q _); simpl;
      destruct (String.eqb event_type "error"); simpl;
      intros [= <- <- <-]; simpl; now apply lookup_insert_ne.
  - destruct (String.eqb event_type "error"); simpl;
      intros [= <- <- <-]; simpl; now apply lookup_insert_ne.
Qed.

Lemma foldM_app {A B} (body : B -> A -> M B) (l1 l2 : list A) acc self :
  foldM body (l1 ++ l2) acc self = (foldM body l1 acc ≫= foldM body l2) self.
Proof.
  revert acc self. induction l1 as [| x l1 IH]; intros acc self; simpl.
  - unfold mbind, M_bind, bind, mret, M_ret, ret.
    now destruct (foldM body l2 acc self) as [[r self'] out].
  - unfold mbind, M_bind, bind.
    destruct (body acc x self) as [[[acc' | e] self1] out1]; [| reflexivity].
    rewrite IH. unfold mbind, M_bind, bind.
    destruct (foldM body l1 acc' self1) as [[[acc'' | e] self2] out2]; [| reflexivity].
    destruct (foldM body l2 acc'' self2) as [[r self3] out3].
    now rewrite app_assoc.
Qed.

Lemma run_events_other_kinds `{Extern} kind others self r self' out :
  Forall (fun ev : Code * string * value => ev.1.2 <> kind) others ->
  run_events others self = (r, self', out) ->
  last_event self' !! kind = last_event self !! kind.
Proof.
  unfold run_events. intros Hall. revert self out.
  induction Hall as [| [[caller event_type] event_text] others Hne _ IH];
    intros self out; simpl.
  - now intros [= <- <- <-].
  - intros Hrun.
    apply bind_inv in Hrun
        as [([] & self1 & out1 & out2 & H1 & H2 & ->) | (e & H1 & ->)].
    + rewrite (IH _ _ H2). eapply queue_event_other_kind; eauto.
    + eapply queue_event_other_kind; eauto.
Qed.

(** What the test on [last_event] gives. In any sequence of calls of
    [queue_event] that have all returned, take the last call of a given
    kind, whether its event was queued or dropped. A further call of that
    kind whose text, formatted for that kind, is the same, returns at once:
    nothing is put on the callback queue, the instance is unchanged, and
    nothing is logged. *)
Theorem queue_event_suppresses_repeat `{Extern} (self : Pac)
    (before others : list (Code * string * value))
    (caller caller' : Code) (event_type : string) (event_text event_text' : value)
    (self' : Pac) (out : list effect) :
  Forall (fun ev : Code * string * value => ev.1.2 <> event_type) others ->
  format_event event_type event_text' = format_event event_type event_text ->
  run_events (before ++ (caller, event_type, event_text) :: others) self
  = (Returned tt, self', out) ->
  queue_event caller' event_type event_text' self' = (Returned tt, self', []).
Proof.
  intros Hothers Hfmt Hrun. unfold run_events in Hrun.
  rewrite foldM_app in Hrun.
  apply bind_inv in Hrun
      as [([] & self1 & out1 & out2 & _ & Hrun & ->) | (e & _ & [=])].
  simpl in Hrun.
  apply bind_inv in Hrun
      as [([] & self2 & out3 & out4 & Hevent & Hrest & ->) | (e & _ & [=])].
  apply queue_event_last_event in Hevent.
  destruct (format_event event_type event_text) as [v | e] eqn:Hv.
  - apply queue_event_suppressed with (v := v); [assumption |].
    rewrite <- Hevent. eapply run_events_other_kinds; eauto.
  - now destruct Hevent as [[=] _].
Qed.

(** The witness: the phase line [Checking dependencies...] comes again
    after a progress value. *)
Lemma queue_event_suppresses_repeat_witness :
  let self := Example.pac (Some Example.empty_queue) None in
  let first := (Example.a_caller, "info", Str "Checking dependencies...") in
  let second := (Example.a_caller, "percent", Num 0%R) in
  exists self' out,
    @run_events Example.by_name [first; second] self = (Returned tt, self', out)
    /\ @queue_event Example.by_name Example.a_caller "info"
         (Str "Checking dependencies...") self'
       = (Returned tt, self', []).
Proof.
  intros self first second. eexists _, _. split; [vm_compute; reflexivity |].
  eapply (@queue_event_suppresses_repeat Example.by_name self [] [second]
            Example.a_caller Example.a_caller "info").
  - repeat constructor. discriminate.
  - reflexivity.
  - vm_compute. reflexivity.
Defined.

(** C6, the code at the failing input. The callback queue has room for one
    event. The phase line [Checking dependencies...] is queued; the next
    one, [Resolving dependencies...], finds the queue full and is dropped,
    but it is recorded in [last_event] all the same. So the event queued
    last of its kind is still [Checking dependencies...], and a call with
    that very event is not suppressed. With the queue still full it is
    recorded and dropped with a warning; once the consumer has taken the
    first event, it is queued a second time, so the consumer gets the same
    event twice in a row. *)
Theorem queue_event_repeat_after_drop `{Extern} :
  let self := Example.pac (Some Example2.small_queue) None in
  let checking := Str "Checking dependencies..." in
  let resolving := Str "Resolving dependencies..." in
  let queued := {| maxsize := 1; items := [("info", checking)];
                   unfinished_tasks := 1 |} in
  exists self2,
    run_events [(Example.a_caller, "info", checking);
                (Example.a_caller, "info", resolving)] self
    = (Returned tt, self2, [Log WARNING (AStr "Callback queue is full") []])
    /\ callback_queue self2 = Some queued
    /\ queue_event Example.a_caller "info" checking self2
       = (Returned tt,
          set_last_event (<["info" := checking]> (last_event self2)) self2,
          [Log WARNING (AStr "Callback queue is full") []])
    /\ queue_event Example.a_caller "info" checking
         (set_callback_queue (Some Example2.small_queue) self2)
       = (Returned tt,
          set_callback_queue (Some queued)
            (set_last_event (<["info" := checking]> (last_event self2)) self2),
          []).
Proof.
  intros self checking resolving queued.
  exists (set_last_event (<["info" := resolving]> (<["info" := checking]> ∅))
            (Example.pac (Some queued) None)).
  repeat split; vm_compute; reflexivity.
Qed.

(** ** [queue_event]: an error event *)

Lemma queue_event_error_no_queue `{Extern} caller event_text self :
  callback_queue self = None ->
  last_event self !! "error" <> Some event_text ->
  queue_event caller "error" event_text self
  = (Raised (SystemExit 1),
     set_last_event (<["error" := event_text]> (last_event self)) self,
     [Log ERROR
          (AVal (Str (str event_text +:+ ": " +:+ co_name caller +:+ " in "
                      +:+ co_filename caller +:+ ":"
                      +:+ pretty (co_firstlineno caller)))) []]).
Proof.
  intros Hq Hlast. unfold queue_event. simpl. rewrite get_bind.
  rewrite bool_decide_eq_false_2 by assumption.
  run_monad. now rewrite Hq.
Qed.

Lemma queue_event_error_queued `{Extern} caller event_text self q q' :
  callback_queue self = Some q ->
  last_event self !! "error" <> Some event_text ->
  put_nowait q
    ("error",
     Str (str event_text +:+ ": " +:+ co_name caller +:+ " in "
          +:+ co_filename caller +:+ ":" +:+ pretty (co_firstlineno caller)))
  = Some q' ->
  queue_event caller "error" event_text self
  = (Raised (SystemExit 1),
     set_callback_queue (Some q')
       (set_last_event (<["error" := event_text]> (last_event self)) self),
     [QueueJoin]).
Proof.
  intros Hq Hlast Hput. unfold queue_event. simpl. rewrite get_bind.
  rewrite bool_decide_eq_false_2 by assumption.
  run_monad. rewrite Hq. simpl in *. now rewrite Hput.
Qed.

Lemma queue_event_error_full `{Extern} caller event_text self q :
  callback_queue self = Some q ->
  last_event self !! "error" <> Some event_text ->
  (0 < maxsize q <= Z.of_nat (length (items q))) ->
  queue_event caller "error" event_text self
  = (Raised (SystemExit 1),
     set_last_event (<["error" := event_text]> (last_event self)) self,
     [Log WARNING (AStr "Callback queue is full") []; QueueJoin]).
Proof.
  intros Hq Hlast [Hpos Hfull]. unfold queue_event. simpl. rewrite get_bind.
  rewrite bool_decide_eq_false_2 by assumption.
  run_monad. rewrite Hq. unfold put_nowait.
  replace (0 <? maxsize q) with true by (symmetry; now apply Z.ltb_lt).
  replace (maxsize q <=? Z.of_nat (length (items q))) with true
    by (symmetry; now apply Z.leb_le).
  reflexivity.
Qed.

(** C9, the code at the failing input: the callback queue is full. The
    error event is dropped with a warning, and [queue_event] still waits
    for the queue and exits: after the call the queue holds what it held
    before, so the consumer that drains it never sees the error event. *)
Theorem queue_event_error_dropped_when_full `{Extern} :
  let self := Example.pac (Some Example.full_queue) None in
  let '(r, self', out) :=
    queue_event Example.a_caller "error" (Str "Can't install the base system") self in
  r = Raised (SystemExit 1)
  /\ callback_queue self' = Some Example.full_queue
  /\ out = [Log WARNING (AStr "Callback queue is full") []; QueueJoin].
Proof.
  intros self.
  rewrite (queue_event_error_full Example.a_caller _ self Example.full_queue);
    [auto | reflexivity | | simpl; lia].
  unfold self. simpl. now rewrite lookup_empty.
Qed.

(** ** [cb_progress]: the division by [total] *)

Lemma ret_bind {A B} (a : A) (k : A -> M B) self : (mret a ≫= k) self = k a self.
Proof.
  unfold mbind, M_bind, bind, mret, M_ret, ret.
  now destruct (k a self) as [[r self'] out].
Qed.

Lemma queue_event_returns `{Extern} caller event_type event_text v self :
  event_type <> "error" ->
  format_event event_type event_text = Returned v ->
  exists self' out,
    queue_event caller event_type event_text self = (Returned tt, self', out).
Proof.
  intros Hkind Hfmt. unfold queue_event. rewrite Hfmt, get_bind.
  case_bool_decide; [now eexists _, _ |].
  apply String.eqb_neq in Hkind. run_monad. rewrite Hkind.
  destruct (callback_queue self) as [q |]; simpl; [| now eexists _, _].
  destruct (put_nowait q _); simpl; now eexists _, _.
Qed.

(** C10. With a target, [cb_progress] divides [current] by [total] without
    a test on [total]. When [total] is not zero the call returns, and it is
    the info event [Installing target (current/total)] followed by the
    percent event of value [current / total]. When [total] is zero the call
    raises [ZeroDivisionError], once the info event has been dealt with. *)
Theorem cb_progress_unguarded_division `{Extern} (target : string)
    (percent total current : Z) (self : Pac) :
  target <> "" ->
  let caller := code_of "cb_progress" 566 in
  let msg := "Installing " +:+ target +:+ " (" +:+ pretty current +:+ "/"
             +:+ pretty total +:+ ")" in
  (total <> 0 ->
   cb_progress target percent total current self
   = (queue_event caller "info" (Str msg);;
      queue_event caller "percent" (Num (IZR current / IZR total)%R)) self
   /\ exists self' out,
       cb_progress target percent total current self = (Returned tt, self', out))
  /\ (total = 0 ->
      cb_progress target percent total current self
      = let '(_, self', out) := queue_event caller "info" (Str msg) self in
        (Raised ZeroDivisionError, self', out)).
Proof.
  intros Htarget caller msg. unfold cb_progress.
  apply String.eqb_neq in Htarget. rewrite Htarget. cbn [negb].
  fold caller. fold msg.
  destruct (queue_event_returns caller "info" (Str msg) (Str msg) self)
    as (self1 & out1 & Hinfo); [discriminate | reflexivity |].
  split.
  - intros Htotal. apply Z.eqb_neq in Htotal.
    rewrite !(bind_returned _ _ _ _ _ _ Hinfo). cbv beta.
    unfold truediv. rewrite Htotal. unfold lift. rewrite ret_bind.
    split; [reflexivity |].
    destruct (queue_event_returns caller "percent"
                (Num (IZR current / IZR total)%R)
                (Str (format_2f (IZR current / IZR total)%R)) self1)
      as (self2 & out2 & Hpercent); [discriminate | reflexivity |].
    rewrite Hpercent. now eexists _, _.
  - intros ->. rewrite (bind_returned _ _ _ _ _ _ Hinfo), Hinfo. cbv beta.
    unfold truediv. rewrite Z.eqb_refl. unfold lift.
    now rewrite (bind_raised (raise ZeroDivisionError) _ self1
                   ZeroDivisionError self1 [] eq_refl), app_nil_r.
Qed.

(** The witness: the second of three packages, then a call with no package
    to install at all. *)
Lemma cb_progress_unguarded_division_witness :
  let self := Example.pac (Some Example.empty_queue) None in
  (exists self' out,
      @cb_progress Example.by_name "linux" 40 3 2 self = (Returned tt, self', out))
  /\ fst (fst (@cb_progress Example.by_name "linux" 0 0 0 self))
     = Raised ZeroDivisionError.
Proof.
  intros self. split.
  - apply (proj1 (@cb_progress_unguarded_division Example.by_name "linux" 40 3 2 self
                    ltac:(discriminate))).
    discriminate.
  - rewrite (proj2 (@cb_progress_unguarded_division Example.by_name "linux" 0 0 0 self
                      ltac:(discriminate)) eq_refl).
    reflexivity.
Defined.

(** ** [cb_dl]: the progress reported for a stream grows *)

Lemma set_last_dl_same self filename total :
  last_dl_filename self = filename ->
  last_dl_total_size self = total ->
  set_last_dl filename total (last_dl_progress self) self = self.
Proof. destruct self. simpl. now intros -> ->. Qed.

Lemma queue_event_set_last_dl `{Extern} caller event_type event_text filename
    total progress self :
  queue_event caller event_type event_text (set_last_dl filename total progress self)
  = let '(r, self', out) := queue_event caller event_type event_text self in
    (r, set_last_dl filename total progress self', out).
Proof.
  unfold queue_event.
  destruct (format_event event_type event_text) as [v | e]; [| reflexivity].
  rewrite !get_bind.
  change (last_event (set_last_dl filename total progress self))
    with (last_event self).
  destruct (bool_decide (last_event self !! event_type = Some v)); [reflexivity |].
  run_monad.
  destruct (callback_queue self) as [q |]; simpl.
  - destruct (put_nowait q _); simpl;
      destruct (String.eqb event_type "error"); reflexivity.
  - destruct (String.eqb event_type "error"); reflexivity.
Qed.

Lemma run_events_set_last_dl `{Extern} events filename total progress self :
  run_events events (set_last_dl filename total progress self)
  = let '(r, self', out) := run_events events self in
    (r, set_last_dl filename total progress self', out).
Proof.
  unfold run_events. revert self.
  induction events as [| [[caller event_type] event_text] events IH];
    intros self; simpl.
  - reflexivity.
  - unfold mbind, M_bind, bind. rewrite queue_event_set_last_dl.
    destruct (queue_event caller event_type event_text self)
      as [[[[] | e] self1] out1]; [| reflexivity].
    rewrite IH.
    now destruct (foldM _ events tt self1) as [[r self2] out2].
Qed.

Lemma dl_progress_returns total transfer :
  0 <= transfer -> exists progress, dl_progress total transfer = Returned progress.
Proof.
  intros Hpos. unfold dl_progress. destruct (0 <? total); [now eexists |].
  destruct (transfer <=? -1024) eqn:Hle; [| now eexists].
  apply Z.leb_le in Hle. lia.
Qed.

Lemma reported_sorted total transfers last :
  StronglySorted Rlt (last :: reported total transfers last).
Proof.
  revert last. induction transfers as [| transfer transfers IH]; intros last; simpl.
  - repeat constructor.
  - destruct (dl_progress total transfer) as [progress | e]; [| repeat constructor].
    destruct (Rgt_dec progress last) as [Hgt | Hle]; [| apply IH].
    specialize (IH progress). inversion IH as [| ? ? Hsorted Hall]; subst.
    constructor; [assumption |].
    constructor; [exact Hgt |].
    eapply Forall_impl; [exact Hall |]. intros x Hx. simpl in *. lra.
Qed.

Lemma last_cons {A} (x d : A) (l : list A) : List.last (x :: l) d = List.last l x.
Proof.
  revert x d. induction l as [| y l IH]; intros x d; [reflexivity |].
  change (List.last (x :: y :: l) d) with (List.last (y :: l) d).
  now rewrite (IH y d), (IH y x).
Qed.

(** Within a stream, [cb_dl] either reports the new progress value, when
    it exceeds the last one reported, or does nothing at all. *)
Lemma cb_dl_same_stream `{Extern} filename transfer total self progress :
  last_dl_filename self = Some filename ->
  last_dl_total_size self = total ->
  dl_progress total transfer = Returned progress ->
  cb_dl filename transfer total self
  = if Rgt_dec progress (last_dl_progress self)
    then let '(r, self', out) :=
           queue_event (code_of "cb_dl" 577) "percent" (Num progress) self in
         (r, set_last_dl (Some filename) total progress self', out)
    else (Returned tt, self, []).
Proof.
  intros Hfile Htotal Hprogress. unfold cb_dl. rewrite get_bind.
  rewrite Hfile, Htotal.
  rewrite bool_decide_eq_false_2 by (intros Hne; now apply Hne).
  rewrite bool_decide_eq_false_2 by (intros Hne; now apply Hne).
  cbn [orb]. rewrite Hprogress. unfold lift. rewrite ret_bind.
  destruct (Rgt_dec progress (last_dl_progress self)) as [Hgt | Hle]; [| reflexivity].
  unfold mbind, M_bind, bind, put. rewrite queue_event_set_last_dl.
  now destruct (queue_event _ "percent" (Num progress) self) as [[res self'] out].
Qed.

(** The first call for a file while packages are downloaded: the progress
    of the file starts again at 0, with the label of the file and the
    percent event of value 0. *)
Lemma cb_dl_new_stream `{Extern} filename transfer total self :
  Some filename <> last_dl_filename self \/ last_dl_total_size self <> total ->
  total_download_size self <> 0 ->
  cb_dl filename transfer total self
  = (queue_event (code_of "cb_dl" 577) "info"
       (Str ("Downloading " +:+ strip_ext filename ".pkg.tar.xz" +:+ "..."));;
     queue_event (code_of "cb_dl" 577) "percent" (Num 0%R))
      (set_downloaded_packages (downloaded_packages self + 1)
         (set_last_dl (Some filename) total 0%R self)).
Proof.
  intros Hnew Hsize. unfold cb_dl. rewrite get_bind.
  assert (Hcond : bool_decide (Some filename <> last_dl_filename self)
                  || bool_decide (last_dl_total_size self <> total) = true).
  { destruct Hnew as [Hnew | Hnew].
    - now rewrite (bool_decide_eq_true_2 _ Hnew).
    - rewrite (bool_decide_eq_true_2 _ Hnew). apply orb_true_r. }
  rewrite Hcond. apply Z.eqb_neq in Hsize.
  run_monad. rewrite Hsize. simpl.
  destruct (queue_event _ "info" _ _) as [[[[] | e] self1] out1]; [| reflexivity].
  now destruct (queue_event _ "percent" _ self1) as [[res self2] out2].
Qed.

(** C7. Take the calls of [cb_dl] that continue a stream: the file name
    and the total size are those of the previous call. A call reports its
    progress value only when the value exceeds the last one reported for
    the file: the calls do what [queue_event] does with the percent events
    of [reported], in that order, and record the last of them. And the
    values so reported, after the last one reported before, increase
    strictly. *)
Theorem cb_dl_percent_increases `{Extern} (filename : string) (total : Z)
    (transfers : list Z) (self : Pac) :
  last_dl_filename self = Some filename ->
  last_dl_total_size self = total ->
  Forall (fun transfer => 0 <= transfer) transfers ->
  let progresses := reported total transfers (last_dl_progress self) in
  run_dl filename total transfers self
  = (let '(r, self', out) := run_events (map percent_event progresses) self in
     (r,
      set_last_dl (Some filename) total
        (List.last progresses (last_dl_progress self)) self',
      out))
  /\ StronglySorted Rlt (last_dl_progress self :: progresses).
Proof.
  intros Hfile Htotal Hall. split; [| apply reported_sorted].
  revert self Hfile Htotal.
  induction Hall as [| transfer transfers Hpos _ IH]; intros self Hfile Htotal.
  - simpl. now rewrite set_last_dl_same.
  - destruct (dl_progress_returns total transfer Hpos) as [progress Hprogress].
    unfold run_dl. simpl foldM. simpl reported. rewrite Hprogress.
    unfold mbind at 1. unfold M_bind, bind.
    rewrite (cb_dl_same_stream _ _ _ _ _ Hfile Htotal Hprogress).
    destruct (Rgt_dec progress (last_dl_progress self)) as [Hgt | Hle].
    + destruct (queue_event_returns (code_of "cb_dl" 577) "percent" (Num progress)
                  (Str (format_2f progress)) self)
        as (self1 & out1 & Hevent); [discriminate | reflexivity |].
      rewrite Hevent. fold (run_dl filename total transfers).
      rewrite IH by reflexivity.
      change (last_dl_progress (set_last_dl (Some filename) total progress self1))
        with progress.
      rewrite run_events_set_last_dl, last_cons.
      unfold run_events. simpl foldM.
      rewrite (bind_returned _ _ _ _ _ _ Hevent).
      now destruct (foldM _ (map percent_event (reported total transfers progress))
                      tt self1) as [[res self2] out2].
    + fold (run_dl filename total transfers). simpl app.
      rewrite (IH self Hfile Htotal).
      now destruct (run_events _ self) as [[res self2] out2].
Qed.

(** The witness: a package of 1000 bytes, of which 500, 500 again and 750
    have arrived. *)
Lemma cb_dl_percent_increases_witness :
  let self :=
    set_last_dl (Some "linux-4.19.4-1-x86_64.pkg.tar.xz") 1000 0%R
      (Example.pac (Some Example.empty_queue) None) in
  StronglySorted Rlt (0%R :: reported 1000 [500; 500; 750] 0%R).
Proof.
  intros self.
  exact (proj2 (@cb_dl_percent_increases Example.by_name
                  "linux-4.19.4-1-x86_64.pkg.tar.xz" 1000 [500; 500; 750] self
                  eq_refl eq_refl
                  ltac:(repeat constructor; lia))).
Defined.

(** Half of the file, and then the same amount again: one value. *)
Lemma reported_no_growth :
  reported 1000 [500; 500] 0%R = [(IZR 500 / IZR 1000)%R].
Proof.
  simpl. destruct (Rgt_dec (500 / 1000) 0) as [_ | Hle]; [| lra].
  destruct (Rgt_dec (500 / 1000) (500 / 1000)) as [Hgt | _]; [lra | reflexivity].
Qed.

(** ** The progress of a stream of unknown size *)

Section Unsized.

Local Open Scope R_scope.

Lemma exp_double x : exp (2 * x) = exp x * exp x.
Proof. replace (2 * x) with (x + x) by lra. apply exp_plus. Qed.

Lemma exp_two_thirds : exp (2 / 3) < 2.
Proof.
  assert (H0 : 23 / 24 < exp (- / 24)).
  { pose proof (exp_ineq1 (- / 24)) as Hexp. lra. }
  assert (H1 : exp (/ 24) < 24 / 23).
  { pose proof (exp_pos (/ 24)) as Hpos.
    assert (Hinv : exp (/ 24) * exp (- / 24) = 1).
    { rewrite <- exp_plus. replace (/ 24 + - / 24) with 0 by lra. apply exp_0. }
    nra. }
  pose proof (exp_pos (/ 24)) as P1.
  assert (H2 : exp (/ 12) < (24 / 23) ^ 2).
  { replace (/ 12) with (2 * / 24) by lra. rewrite exp_double. nra. }
  pose proof (exp_pos (/ 12)) as P2.
  assert (H3 : exp (/ 6) < (24 / 23) ^ 4).
  { replace (/ 6) with (2 * / 12) by lra. rewrite exp_double.
    replace ((24 / 23) ^ 4) with ((24 / 23) ^ 2 * (24 / 23) ^ 2) by lra. nra. }
  pose proof (exp_pos (/ 6)) as P3.
  assert (H4 : exp (/ 3) < (24 / 23) ^ 8).
  { replace (/ 3) with (2 * / 6) by lra. rewrite exp_double.
    replace ((24 / 23) ^ 8) with ((24 / 23) ^ 4 * (24 / 23) ^ 4) by lra.
    assert (0 < (24 / 23) ^ 4) by lra. nra. }
  pose proof (exp_pos (/ 3)) as P4.
  assert (H5 : exp (2 / 3) < (24 / 23) ^ 16).
  { replace (2 / 3) with (2 * / 3) by lra. rewrite exp_double.
    replace ((24 / 23) ^ 16) with ((24 / 23) ^ 8 * (24 / 23) ^ 8) by lra.
    assert (0 < (24 / 23) ^ 8) by lra. nra. }
  assert ((24 / 23) ^ 16 < 2) by lra.
  lra.
Qed.

Lemma ln_2_lower : 2 / 3 < ln 2.
Proof.
  rewrite <- (ln_exp (2 / 3)). apply ln_increasing; [apply exp_pos |].
  apply exp_two_thirds.
Qed.

Lemma ln_nonneg x : 1 <= x -> 0 <= ln x.
Proof.
  intros [Hlt | <-]; [| rewrite ln_1; lra].
  rewrite <- ln_1. left. apply ln_increasing; lra.
Qed.

Lemma sqr_lt_200 y : 0 <= y -> (y ^ 2 / 2 / 100 < 1 <-> y < sqrt 200).
Proof.
  intros Hy. pose proof (sqrt_pos 200) as Hs.
  assert (Hsq : sqrt 200 * sqrt 200 = 200) by (apply sqrt_sqrt; lra).
  split; intros Hlt; nra.
Qed.

Lemma sqrt_200_gt_14 : 14 < sqrt 200.
Proof.
  replace 14 with (sqrt (14 * 14)) by (apply sqrt_square; lra).
  apply sqrt_lt_1_alt. lra.
Qed.

(** C8, the claim as it stands, at a concrete input: once 4 GiB of a
    stream of unknown size have arrived, the heuristic is above 1. *)
Lemma unsized_progress_exceeds_1 : ~ unsized_progress 4294967296 < 1.
Proof.
  unfold unsized_progress.
  replace (IZR 4294967296 / 1024) with (2 ^ 22) by lra.
  assert (Hln : 44 / 3 < ln (1 + 2 ^ 22)).
  { apply Rlt_trans with (ln (2 ^ 22)).
    - rewrite ln_pow by lra. pose proof ln_2_lower. simpl INR. lra.
    - apply ln_increasing; lra. }
  nra.
Qed.

(** C8, amended. The heuristic [(ln (1 + transfer / 1024)) ^ 2 / 200] is
    below 1 exactly for the transfer amounts below
    [1024 * (exp (sqrt 200) - 1)] bytes, about 1.42e9; from that amount on
    it is 1 or more. *)
Theorem unsized_progress_below_1_iff (transfer : Z) :
  (0 <= transfer)%Z ->
  unsized_progress transfer < 1 <-> IZR transfer < 1024 * (exp (sqrt 200) - 1).
Proof.
  intros Hpos. apply IZR_le in Hpos. unfold unsized_progress.
  assert (Hx : 1 <= 1 + IZR transfer / 1024).
  { apply Rle_trans with (1 + 0 / 1024); [lra |].
    apply Rplus_le_compat_l, Rmult_le_compat_r; lra. }
  rewrite (sqr_lt_200 _ (ln_nonneg _ Hx)).
  split; intros Hlt.
  - apply exp_increasing in Hlt. rewrite exp_ln in Hlt by lra. lra.
  - apply exp_lt_inv. rewrite exp_ln by lra. lra.
Qed.

(** The witness: 10000 bytes have arrived. *)
Lemma unsized_progress_below_1_iff_witness : unsized_progress 10000 < 1.
Proof.
  apply (proj2 (unsized_progress_below_1_iff 10000 ltac:(lia))).
  pose proof sqrt_200_gt_14 as Hsqrt.
  pose proof (exp_ineq1 (sqrt 200) ltac:(lra)) as Hexp.
  lra.
Defined.

End Unsized.

(** * Further properties of the module *)

(** ** [repos]: the order of the repositories *)

Lemma setitem_fresh {V} (k : string) (v : V) (d : OrderedDict V) :
  k ∉ map fst d -> setitem k v d = d ++ [(k, v)].
Proof.
  induction d as [| [k' v'] d IH]; simpl; intros Hfresh; [reflexivity |].
  destruct (String.eqb k' k) eqn:Hk.
  - apply String.eqb_eq in Hk. subst. exfalso. apply Hfresh. now left.
  - rewrite IH; [reflexivity |]. intros Hin. apply Hfresh. now right.
Qed.

Lemma repos_of_from (syncdbs : list DB) (repos : OrderedDict DB) :
  NoDup (map fst repos ++ map db_name syncdbs) ->
  fold_left (fun repos syncdb => setitem (db_name syncdb) syncdb repos) syncdbs repos
  = repos ++ map (fun syncdb => (db_name syncdb, syncdb)) syncdbs.
Proof.
  revert repos. induction syncdbs as [| syncdb syncdbs IH]; intros repos Hnodup; simpl.
  - now rewrite app_nil_r.
  - rewrite setitem_fresh.
    + rewrite IH.
      * now rewrite <- app_assoc.
      * rewrite map_app. simpl. now rewrite <- app_assoc.
    + simpl in Hnodup. apply NoDup_app in Hnodup as (_ & Hdisjoint & _).
      intros Hin. apply (Hdisjoint _ Hin). now left.
Qed.

(** X1. When no two sync databases have the same name, [repos] holds the
    databases in the order of [get_syncdbs]: the [OrderedDict] changes
    neither their order nor their number, and a name is looked up through
    [repos] in the configured order. *)
Theorem repos_of_keeps_order (syncdbs : list DB) :
  NoDup (map db_name syncdbs) ->
  values (repos_of syncdbs) = syncdbs
  /\ forall pkgname,
      find_sync_package pkgname (repos_of syncdbs)
      = match first_pkg pkgname syncdbs with
        | Some pkg => inl pkg
        | None => inr ("Package '" +:+ pkgname +:+ "' was not found.")
        end.
Proof.
  intros Hnodup.
  assert (Hvalues : values (repos_of syncdbs) = syncdbs).
  { unfold repos_of. rewrite repos_of_from by exact Hnodup. simpl.
    unfold values. rewrite map_map. simpl. apply map_id. }
  split; [exact Hvalues |].
  intros pkgname. unfold find_sync_package. now rewrite Hvalues.
Qed.

Lemma repos_of_keeps_order_witness :
  values (repos_of [Example.community; Example.antergos])
  = [Example.community; Example.antergos].
Proof.
  apply (proj1 (repos_of_keeps_order [Example.community; Example.antergos]
                  ltac:(apply (bool_decide_unpack _); reflexivity))).
Defined.

Lemma setitem_keys {V} (k : string) (v : V) (d : OrderedDict V) :
  map fst (setitem k v d)
  = if bool_decide (k ∈ map fst d) then map fst d else map fst d ++ [k].
Proof.
  induction d as [| [k0 v0] d IH]; cbn [setitem map fst].
  - rewrite bool_decide_eq_false_2; [reflexivity | apply not_elem_of_nil].
  - destruct (String.eqb k0 k) eqn:Hk.
    + apply String.eqb_eq in Hk. subst k0.
      rewrite bool_decide_eq_true_2; [reflexivity | now left].
    + apply String.eqb_neq in Hk. cbn [map fst]. rewrite IH.
      destruct (bool_decide (k ∈ map fst d)) eqn:Hin.
      * apply bool_decide_eq_true in Hin.
        rewrite bool_decide_eq_true_2; [reflexivity | now right].
      * apply bool_decide_eq_false in Hin.
        rewrite bool_decide_eq_false_2; [reflexivity |].
        intros Hcons. apply elem_of_cons in Hcons as [-> | Hcons]; contradiction.
Qed.

Lemma setitem_nodup {V} (k : string) (v : V) (d : OrderedDict V) :
  NoDup (map fst d) -> NoDup (map fst (setitem k v d)).
Proof.
  intros Hnodup. rewrite setitem_keys. case_bool_decide as Hin; [exact Hnodup |].
  apply NoDup_app. repeat split; [exact Hnodup | | apply NoDup_singleton].
  intros x Hx Hk. apply list_elem_of_singleton in Hk. now subst.
Qed.

Lemma setitem_elem {V} (k k' : string) (v v' : V) (d : OrderedDict V) :
  NoDup (map fst d) ->
  (k', v') ∈ setitem k v d <-> (k' = k /\ v' = v) \/ ((k', v') ∈ d /\ k' <> k).
Proof.
  induction d as [| [k0 v0] d IH]; simpl; intros Hnodup.
  - rewrite list_elem_of_singleton. split.
    + intros [= -> ->]. now left.
    + intros [[-> ->] | [Hin _]]; [reflexivity | now apply elem_of_nil in Hin].
  - apply NoDup_cons in Hnodup as [Hfresh Hnodup].
    destruct (String.eqb k0 k) eqn:Hk.
    + apply String.eqb_eq in Hk. subst k0. rewrite !elem_of_cons. split.
      * intros [[= -> ->] | Hin]; [now left |].
        right. split; [now right |]. intros ->. apply Hfresh.
        apply list_elem_of_fmap. now exists (k, v').
      * intros [[-> ->] | [[[= -> ->] | Hin] Hne]];
          [now left | contradiction | now right].
    + apply String.eqb_neq in Hk. rewrite !elem_of_cons, (IH Hnodup). split.
      * intros [[= -> ->] | [[-> ->] | [Hin Hne]]].
        -- right. split; [now left | exact Hk].
        -- now left.
        -- right. split; [now right | exact Hne].
      * intros [[-> ->] | [[[= -> ->] | Hin] Hne]].
        -- right. now left.
        -- now left.
        -- right. right. now split.
Qed.

Lemma repos_of_snoc (syncdbs : list DB) (syncdb : DB) :
  repos_of (syncdbs ++ [syncdb])
  = setitem (db_name syncdb) syncdb (repos_of syncdbs).
Proof. unfold repos_of. now rewrite fold_left_app. Qed.

Lemma repos_of_entries (syncdbs : list DB) :
  NoDup (map fst (repos_of syncdbs))
  /\ Forall (fun entry => fst entry = db_name (snd entry)) (repos_of syncdbs).
Proof.
  induction syncdbs as [| syncdb syncdbs [Hnodup Hnames]] using rev_ind.
  - split; [apply NoDup_nil_2 | apply Forall_nil_2].
  - rewrite repos_of_snoc. split; [now apply setitem_nodup |].
    apply Forall_forall. intros [k v] Hin.
    apply setitem_elem in Hin as [[-> ->] | [Hin _]]; [reflexivity | | exact Hnodup].
    rewrite Forall_forall in Hnames. exact (Hnames _ Hin).
Qed.

(** X2. Whatever the names of the sync databases: a database is among
    the values of [repos] exactly when no database after it in
    [get_syncdbs] has its name. So of the databases of one name only the
    last is looked into. *)
Theorem repos_of_last_of_name (syncdbs : list DB) (database : DB) :
  database ∈ values (repos_of syncdbs)
  <-> exists before after,
      syncdbs = before ++ database :: after
      /\ Forall (fun other => db_name other <> db_name database) after.
Proof.
  induction syncdbs as [| syncdb syncdbs IH] using rev_ind.
  - split.
    + intros Hin. now apply elem_of_nil in Hin.
    + intros (before & after & Heq & _). now destruct before.
  - destruct (repos_of_entries syncdbs) as [Hnodup Hnames].
    rewrite repos_of_snoc. unfold values in *. rewrite list_elem_of_fmap. split.
    + intros ([k v] & -> & Hin). simpl.
      apply setitem_elem in Hin as [[-> ->] | [Hin Hne]]; [| | exact Hnodup].
      * exists syncdbs, []. split; [reflexivity | constructor].
      * assert (Hk : k = db_name v).
        { rewrite Forall_forall in Hnames. exact (Hnames _ Hin). }
        destruct (proj1 IH) as (before & after & -> & Hafter).
        { apply list_elem_of_fmap. now exists (k, v). }
        exists before, (after ++ [syncdb]). split; [now rewrite <- app_assoc |].
        apply Forall_app. split; [exact Hafter |].
        constructor; [| constructor]. congruence.
    + intros (before & after & Heq & Hafter).
      destruct after as [| other after _] using rev_ind.
      * apply app_inj_tail in Heq as [-> ->].
        exists (db_name database, database). split; [reflexivity |].
        apply setitem_elem; [exact Hnodup | now left].
      * rewrite app_comm_cons, app_assoc in Heq.
        apply app_inj_tail in Heq as [-> ->].
        apply Forall_app in Hafter as [Hafter Hlast].
        apply Forall_cons in Hlast as [Hlast _].
        assert (Hmem : database ∈ map snd (repos_of (before ++ database :: after)))
          by (apply IH; now exists before, after).
        apply list_elem_of_fmap in Hmem as ([k v] & Hv & Hin).
        simpl in Hv. subst v.
        assert (Hk : k = db_name database).
        { rewrite Forall_forall in Hnames. exact (Hnames _ Hin). }
        exists (k, database). split; [reflexivity |].
        apply setitem_elem; [exact Hnodup |]. right. split; [exact Hin |].
        congruence.
Qed.

(** ** [install]: what a call does, case by case *)

Lemma emit_bind {B} (e : effect) (k : unit -> M B) self :
  (emit e ≫= k) self = let '(r, self', out) := k tt self in (r, self', e :: out).
Proof.
  unfold mbind, M_bind, bind, emit. now destruct (k tt self) as [[r self'] out].
Qed.

Lemma put_bind {B} (self' : Pac) (k : unit -> M B) self :
  (put self' ≫= k) self = k tt self'.
Proof.
  unfold mbind, M_bind, bind, put. now destruct (k tt self') as [[r self''] out].
Qed.

Lemma keeps_state_ret {A} (a : A) : keeps_state (mret a).
Proof. now intros self r self' out [= <- <- <-]. Qed.

Lemma keeps_state_emit e : keeps_state (emit e).
Proof. now intros self r self' out [= <- <- <-]. Qed.

Lemma keeps_state_raise {A} e : keeps_state (@raise A e).
Proof. now intros self r self' out [= <- <- <-]. Qed.

Lemma keeps_state_bind {A B} (m : M A) (k : A -> M B) :
  keeps_state m -> (forall a, keeps_state (k a)) -> keeps_state (m ≫= k).
Proof.
  intros Hm Hk self r self' out Hrun.
  apply bind_inv in Hrun as [(a & self1 & out1 & out2 & H1 & H2 & ->) | (e & H1 & ->)].
  - apply Hm in H1. subst self1. exact (Hk a _ _ _ _ H2).
  - exact (Hm _ _ _ _ H1).
Qed.

Lemma keeps_state_foldM {A B} (body : B -> A -> M B) (l : list A) acc :
  (forall acc x, keeps_state (body acc x)) -> keeps_state (foldM body l acc).
Proof.
  intros Hbody. revert acc. induction l as [| x l IH]; intros acc; simpl.
  - apply keeps_state_ret.
  - apply keeps_state_bind; [apply Hbody | exact IH].
Qed.

Lemma keeps_state_get_group_pkgs group : keeps_state (get_group_pkgs group).
Proof.
  intros self r self' out. unfold get_group_pkgs. rewrite get_bind.
  destruct (handle self); now intros [= <- <- <-].
Qed.

Lemma keeps_state_add_target `{Extern} antdb repos exclusive conflicts targets name :
  keeps_state (add_target antdb repos exclusive conflicts targets name).
Proof.
  unfold add_target. destruct (find_sync_package name _); [apply keeps_state_ret |].
  apply keeps_state_bind; [apply keeps_state_get_group_pkgs |].
  intros [group_pkgs |]; [apply keeps_state_ret |].
  apply keeps_state_bind; [apply keeps_state_emit | intros; apply keeps_state_ret].
Qed.

Lemma keeps_state_install_targets `{Extern} h pkgs conflicts :
  keeps_state (install_targets h pkgs conflicts).
Proof.
  unfold install_targets. destruct (List.filter _ _); [apply keeps_state_raise |].
  apply keeps_state_bind.
  - apply keeps_state_foldM. intros. apply keeps_state_add_target.
  - intros targets.
    apply keeps_state_bind; [apply keeps_state_emit | intros; apply keeps_state_ret].
Qed.

(** [install], once the handle and the list of names have passed the
    tests: the resolution, then the transaction. *)
Lemma install_run `{Extern} pkgs conflicts options self h :
  handle self = Some h ->
  pkgs <> [] ->
  install pkgs conflicts options self
  = (install_targets h pkgs (default [] conflicts)
     ≫= fun res => install_transaction (fst res) (snd res)
                     (default no_options options)) self.
Proof.
  intros Hhandle Hpkgs. unfold install. rewrite get_bind, Hhandle.
  rewrite bool_decide_eq_false_2 by assumption.
  unfold mbind, M_bind, bind.
  destruct (install_targets h pkgs (default [] conflicts) self)
    as [[[[targets repos] | e] self1] out1]; reflexivity.
Qed.

Lemma filter_none {A} (f : A -> bool) (l : list A) :
  Forall (fun x => f x = false) l -> List.filter f l = [].
Proof.
  induction 1 as [| x l Hx _ IH]; simpl; [reflexivity |]. now rewrite Hx.
Qed.

(** X3. When the list of sync databases has none named [antergos], a call
    of [install] with a handle and a list of names that is not empty raises
    [IndexError]: nothing is resolved, logged or opened. *)
Theorem install_without_antergos `{Extern} (pkgs : list string)
    (conflicts : option (list string)) (options : option Options)
    (self : Pac) (h : Handle) :
  handle self = Some h ->
  pkgs <> [] ->
  Forall (fun database => db_name database <> "antergos") (get_syncdbs h) ->
  install pkgs conflicts options self = (Raised IndexError, self, []).
Proof.
  intros Hhandle Hpkgs Hnone. rewrite (install_run _ _ _ _ h Hhandle Hpkgs).
  unfold install_targets. rewrite filter_none; [reflexivity |].
  eapply Forall_impl; [exact Hnone |]. intros database Hname.
  now apply String.eqb_neq.
Qed.

Lemma install_without_antergos_witness :
  @install Example.by_name ["linux"] None None
    (Example.pac None (Some Example2.vanilla_handle))
  = (Raised IndexError, Example.pac None (Some Example2.vanilla_handle), []).
Proof.
  apply (@install_without_antergos Example.by_name ["linux"] None None
           (Example.pac None (Some Example2.vanilla_handle))
           Example2.vanilla_handle eq_refl ltac:(discriminate)).
  repeat constructor; discriminate.
Defined.

Lemma init_transaction_opened options self h transaction :
  handle self = Some h ->
  Alpm.init_transaction h (flags_of (default no_options options))
  = Returned transaction ->
  Pac.init_transaction options self
  = (Returned (Some transaction), self,
     [TransInit (flags_of (default no_options options))]).
Proof.
  intros Hhandle Hinit. unfold Pac.init_transaction, try_except.
  rewrite get_bind, Hhandle, Hinit. reflexivity.
Qed.

Lemma init_transaction_refused options self h e :
  handle self = Some h ->
  Alpm.init_transaction h (flags_of (default no_options options)) = Raised e ->
  is_alpm_error e = true ->
  Pac.init_transaction options self
  = (Returned None, self,
     [TransInit (flags_of (default no_options options));
      Log ERROR (AStr "Can't init alpm transaction: %s") [AExn e]]).
Proof.
  intros Hhandle Hinit He. unfold Pac.init_transaction, try_except.
  rewrite get_bind, Hhandle, Hinit. rewrite emit_bind. unfold raise.
  now rewrite He.
Qed.

(** X4. [init_transaction] never lets [pyalpm.error] through and never
    changes the instance. It returns the transaction that pyalpm opens;
    it returns [None], with the error logged, exactly when pyalpm raises
    [pyalpm.error]; any other exception of pyalpm, or the [AttributeError]
    of a missing handle, passes. *)
Theorem init_transaction_result (options : option Options) (self : Pac) :
  let flags := flags_of (default no_options options) in
  let '(r, self', out) := Pac.init_transaction options self in
  self' = self
  /\ match r with
     | Returned (Some transaction) =>
         exists h,
         handle self = Some h
         /\ Alpm.init_transaction h flags = Returned transaction
         /\ out = [TransInit flags]
     | Returned None =>
         exists h e,
         handle self = Some h
         /\ Alpm.init_transaction h flags = Raised e
         /\ is_alpm_error e = true
         /\ out = [TransInit flags;
                   Log ERROR (AStr "Can't init alpm transaction: %s") [AExn e]]
     | Raised e =>
         is_alpm_error e = false
         /\ (handle self = None
             \/ exists h, handle self = Some h
                          /\ Alpm.init_transaction h flags = Raised e)
     end.
Proof.
  intros flags. destruct (handle self) as [h |] eqn:Hhandle.
  - destruct (Alpm.init_transaction h flags) as [transaction | e] eqn:Hinit.
    + rewrite (init_transaction_opened _ _ _ _ Hhandle Hinit).
      split; [reflexivity |]. now exists h.
    + destruct (is_alpm_error e) eqn:He.
      * rewrite (init_transaction_refused _ _ _ _ Hhandle Hinit He).
        split; [reflexivity |]. now exists h, e.
      * unfold Pac.init_transaction, try_except.
        rewrite get_bind, Hhandle. fold flags. rewrite Hinit, emit_bind.
        unfold raise. rewrite He. split; [reflexivity |].
        split; [exact He |]. right. now exists h.
  - unfold Pac.init_transaction, try_except. rewrite get_bind, Hhandle.
    simpl. split; [reflexivity |]. split; [reflexivity |]. now left.
Qed.

(** X5. The flags that [init_transaction] derives from the options:
    [alldeps] and [allexplicit] are never both set, [recurseall] is set
    only with [recurse], and [recurse] is set exactly for a positive
    [recursive]. *)
Theorem flags_of_consistent (options : Options) :
  f_alldeps (flags_of options) && f_allexplicit (flags_of options) = false
  /\ (f_recurseall (flags_of options) = true -> f_recurse (flags_of options) = true)
  /\ (f_recurse (flags_of options) = true <-> 0 < default 0 (recursive options))
  /\ (f_recurseall (flags_of options) = true <-> 1 < default 0 (recursive options)).
Proof.
  unfold flags_of. simpl. repeat split.
  - destruct (mode options) as [m |]; simpl.
    + repeat case_bool_decide; try reflexivity.
      unfold PKG_REASON_DEPEND, PKG_REASON_EXPLICIT in *. congruence.
    + reflexivity.
  - rewrite !Z.ltb_lt. lia.
  - apply Z.ltb_lt.
  - apply Z.ltb_lt.
  - apply Z.ltb_lt.
  - apply Z.ltb_lt.
Qed.

Lemma releases_app t out1 out2 :
  releases t (out1 ++ out2) = (releases t out1 + releases t out2)%nat.
Proof. unfold releases. now rewrite List.filter_app, length_app. Qed.

Lemma added_app out1 out2 : added (out1 ++ out2) = added out1 ++ added out2.
Proof. unfold added. apply flat_map_app. Qed.

Lemma logs_only out :
  Forall (fun e => is_log e = true) out ->
  added out = [] /\ forall t, releases t out = 0%nat.
Proof.
  induction 1 as [| e out He _ [IHadded IHreleases]]; [now split |].
  destruct e; try discriminate He. split.
  - exact IHadded.
  - intros t. exact (IHreleases t).
Qed.

Lemma install_targets_logs_only `{Extern} h pkgs conflicts self r self' out :
  install_targets h pkgs conflicts self = (r, self', out) ->
  Forall (fun e => is_log e = true) out.
Proof.
  intros Hrun.
  now apply (emits_install_targets (fun e => is_log e = true)) in Hrun as [Hout _].
Qed.

Lemma add_effects_added transaction repos names :
  added (map (add_effect transaction repos) names) = omap (found repos) names
  /\ forall t, releases t (map (add_effect transaction repos) names) = 0%nat.
Proof.
  induction names as [| name names [IHadded IHreleases]]; [now split |].
  split.
  - change (added (map (add_effect transaction repos) (name :: names)))
      with (match add_effect transaction repos name with
            | TransAddPkg _ pkg => [pkg]
            | _ => []
            end ++ added (map (add_effect transaction repos) names)).
    rewrite IHadded.
    change (omap (found repos) (name :: names))
      with (match found repos name with
            | Some pkg => pkg :: omap (found repos) names
            | None => omap (found repos) names
            end).
    unfold add_effect, found. now destruct (find_sync_package name repos).
  - intros t.
    change (releases t (map (add_effect transaction repos) (name :: names)))
      with (length (if is_release t (add_effect transaction repos name)
                    then add_effect transaction repos name
                         :: List.filter (is_release t)
                              (map (add_effect transaction repos) names)
                    else List.filter (is_release t)
                           (map (add_effect transaction repos) names))).
    replace (is_release t (add_effect transaction repos name)) with false
      by (unfold add_effect; now destruct (find_sync_package name repos)).
    exact (IHreleases t).
Qed.

Lemma add_pkgs_loop transaction repos names self :
  (forall pkg, add_pkg transaction pkg = None) ->
  foldM (fun _ name =>
           match find_sync_package name repos with
           | inl pkg => call (TransAddPkg (tid transaction) pkg) (add_pkg transaction pkg)
           | inr msg => logging_obj WARNING (AStr msg)
           end) names tt self
  = (Returned tt, self, map (add_effect transaction repos) names).
Proof.
  intros Hadd. induction names as [| name names IH]; [reflexivity |].
  simpl foldM. cbn [map]. unfold add_effect at 1.
  destruct (find_sync_package name repos) as [pkg | msg].
  - assert (Hcall : call (TransAddPkg (tid transaction) pkg)
                         (add_pkg transaction pkg) self
                    = (Returned tt, self, [TransAddPkg (tid transaction) pkg]))
      by (unfold call; now rewrite Hadd).
    now rewrite (bind_returned _ _ _ _ _ _ Hcall), IH.
  - assert (Hlog : logging_obj WARNING (AStr msg) self
                   = (Returned tt, self, [Log WARNING (AStr msg) []]))
      by reflexivity.
    now rewrite (bind_returned _ _ _ _ _ _ Hlog), IH.
Qed.

Lemma finalize_transaction_run transaction self :
  engine_outcome (prepare transaction) ->
  engine_outcome (commit transaction) ->
  Alpm.release transaction = None ->
  exists out,
    finalize_transaction transaction self
    = (Returned (succeeded (prepare transaction) && succeeded (commit transaction)),
       self, out)
    /\ releases (tid transaction) out = 1%nat
    /\ added out = [].
Proof.
  destruct transaction as [t add [ep |] [ec |] rl]; simpl;
    intros Hp Hc ->;
    try (destruct ep; try discriminate Hp);
    try (destruct ec; try discriminate Hc);
    eexists; (split; [reflexivity |]); cbv -[Nat.eqb];
    rewrite Nat.eqb_refl; auto.
Qed.

(** X6. A call of [install] that gets through. The resolution has given
    targets, pyalpm opens a transaction, accepts every package and
    releases without error, and [prepare] and [commit] return or raise
    [pyalpm.error]. Then [install] returns whether both steps succeeded;
    the packages added are those found for the target names, taken from the
    end of the target list; the transaction is released once; and
    [total_packages_to_download] is the number of targets. *)
Theorem install_commits `{Extern} (pkgs : list string)
    (conflicts : option (list string)) (options : option Options)
    (self : Pac) (h : Handle) (targets : list string) (repos : OrderedDict DB)
    (self1 : Pac) (out1 : list effect) (transaction : Transaction) :
  handle self = Some h ->
  pkgs <> [] ->
  install_targets h pkgs (default [] conflicts) self
  = (Returned (targets, repos), self1, out1) ->
  targets <> [] ->
  Alpm.init_transaction h (flags_of (default no_options options))
  = Returned transaction ->
  (forall pkg, add_pkg transaction pkg = None) ->
  engine_outcome (prepare transaction) ->
  engine_outcome (commit transaction) ->
  Alpm.release transaction = None ->
  let '(r, self', out) := install pkgs conflicts options self in
  r = Returned (succeeded (prepare transaction) && succeeded (commit transaction))
  /\ self' = set_total_packages_to_download (Z.of_nat (length targets)) self
  /\ added out = omap (found repos) (rev targets)
  /\ releases (tid transaction) out = 1%nat.
Proof.
  intros Hhandle Hpkgs Htargets Hne Hinit Hadd Hp Hc Hrelease.
  rewrite (install_run _ _ _ _ h Hhandle Hpkgs).
  rewrite (bind_returned _ _ _ _ _ _ Htargets). cbn [fst snd].
  pose proof (keeps_state_install_targets _ _ _ _ _ _ _ Htargets) as ->.
  apply install_targets_logs_only, logs_only in Htargets as [Hadded1 Hreleases1].
  unfold install_transaction. rewrite bool_decide_eq_false_2 by assumption.
  unfold logging. rewrite emit_bind, get_bind, put_bind.
  rewrite (bind_returned _ _ _ _ _ _
             (init_transaction_opened (Some (default no_options options))
                (set_total_packages_to_download (Z.of_nat (length targets)) self)
                h transaction Hhandle Hinit)).
  unfold add_pkgs.
  rewrite (bind_returned _ _ _ _ _ _
             (add_pkgs_loop transaction repos (rev targets) _ Hadd)).
  destruct (finalize_transaction_run transaction
              (set_total_packages_to_download (Z.of_nat (length targets)) self)
              Hp Hc Hrelease) as (fin & -> & Hreleases & Hadded).
  destruct (add_effects_added transaction repos (rev targets))
    as [Hadded2 Hreleases2].
  split; [reflexivity |]. split; [reflexivity |].
  rewrite (cons_middle _ out1).
  rewrite !added_app, !releases_app.
  rewrite Hadded1, Hreleases1, Hadded2, Hreleases2, Hadded, Hreleases.
  simpl. now rewrite app_nil_r.
Qed.

Lemma install_commits_witness :
  let self := Example.pac None (Some (Example.the_handle None None)) in
  let '(r, _, out) := @install Example.by_name ["cinnamon"] None None self in
  r = Returned true
  /\ added out = [Example.cinnamon_community]
  /\ releases 0 out = 1%nat.
Proof.
  intros self.
  pose proof (@install_commits Example.by_name ["cinnamon"] None None self
                (Example.the_handle None None) ["cinnamon"]
                (repos_of [Example.community; Example.antergos]) self
                [Log DEBUG (AList ["cinnamon"]) []]
                (Example.transaction None None)
                eq_refl ltac:(discriminate) ltac:(vm_compute; reflexivity)
                ltac:(discriminate) eq_refl (fun _ => eq_refl) I I eq_refl) as Hw.
  destruct (@install Example.by_name ["cinnamon"] None None self)
    as [[r self'] out].
  destruct Hw as (Hr & _ & Hadded & Hreleases). repeat split; assumption.
Defined.

(** X7. A call of [install] in which pyalpm refuses the first package it
    is given: [add_pkg] raises for the package of the last target name.
    The exception leaves [install], and the transaction that was opened is
    never released. *)
Theorem install_add_pkg_raises `{Extern} (pkgs : list string)
    (conflicts : option (list string)) (options : option Options)
    (self : Pac) (h : Handle) (before : list string) (name : string)
    (repos : OrderedDict DB) (self1 : Pac) (out1 : list effect)
    (transaction : Transaction) (pkg : Package) (e : exn) :
  handle self = Some h ->
  pkgs <> [] ->
  install_targets h pkgs (default [] conflicts) self
  = (Returned (before ++ [name], repos), self1, out1) ->
  Alpm.init_transaction h (flags_of (default no_options options))
  = Returned transaction ->
  find_sync_package name repos = inl pkg ->
  add_pkg transaction pkg = Some e ->
  let '(r, _, out) := install pkgs conflicts options self in
  r = Raised e
  /\ TransInit (flags_of (default no_options options)) ∈ out
  /\ added out = [pkg]
  /\ releases (tid transaction) out = 0%nat.
Proof.
  intros Hhandle Hpkgs Htargets Hinit Hfind Hadd.
  rewrite (install_run _ _ _ _ h Hhandle Hpkgs).
  rewrite (bind_returned _ _ _ _ _ _ Htargets). cbn [fst snd].
  pose proof (keeps_state_install_targets _ _ _ _ _ _ _ Htargets) as ->.
  apply install_targets_logs_only, logs_only in Htargets as [Hadded1 Hreleases1].
  unfold install_transaction.
  rewrite bool_decide_eq_false_2 by (now destruct before).
  unfold logging. rewrite emit_bind, get_bind, put_bind.
  rewrite (bind_returned _ _ _ _ _ _
             (init_transaction_opened (Some (default no_options options))
                (set_total_packages_to_download
                   (Z.of_nat (length (before ++ [name]))) self)
                h transaction Hhandle Hinit)).
  unfold add_pkgs. rewrite rev_unit. simpl foldM. rewrite Hfind.
  assert (Hcall : forall s,
             call (TransAddPkg (tid transaction) pkg) (add_pkg transaction pkg) s
             = (Raised e, s, [TransAddPkg (tid transaction) pkg]))
    by (intros s; unfold call; now rewrite Hadd).
  rewrite (bind_raised _ _ _ _ _ _
             (bind_raised _ _ _ _ _ _ (Hcall _))).
  split; [reflexivity |].
  rewrite (cons_middle _ out1). rewrite !added_app, !releases_app.
  rewrite Hadded1, Hreleases1. repeat split.
  - apply elem_of_app. right. apply elem_of_app. right. now left.
Qed.

Lemma install_add_pkg_raises_witness :
  let self := Example.pac None (Some Example2.refusing_handle) in
  let '(r, _, out) := @install Example.by_name ["cinnamon"] None None self in
  r = Raised (AlpmError "duplicate target") /\ releases 0 out = 0%nat.
Proof.
  intros self.
  pose proof (@install_add_pkg_raises Example.by_name ["cinnamon"] None None self
                Example2.refusing_handle [] "cinnamon"
                (repos_of [Example.community; Example.antergos]) self
                [Log DEBUG (AList ["cinnamon"]) []]
                Example2.refusing Example.cinnamon_community
                (AlpmError "duplicate target")
                eq_refl ltac:(discriminate) ltac:(vm_compute; reflexivity)
                eq_refl eq_refl eq_refl) as Hw.
  destruct (@install Example.by_name ["cinnamon"] None None self)
    as [[r self'] out].
  destruct Hw as (Hr & _ & _ & Hreleases). now split.
Defined.

(** X8. A call of [install] for which pyalpm cannot open a transaction:
    [init_transaction] raises [pyalpm.error]. [install] returns [False]
    with the two errors logged, and no transaction is touched: nothing is
    added, prepared, committed or released. *)
Theorem install_init_refused `{Extern} (pkgs : list string)
    (conflicts : option (list string)) (options : option Options)
    (self : Pac) (h : Handle) (targets : list string) (repos : OrderedDict DB)
    (self1 : Pac) (out1 : list effect) (e : exn) :
  handle self = Some h ->
  pkgs <> [] ->
  install_targets h pkgs (default [] conflicts) self
  = (Returned (targets, repos), self1, out1) ->
  targets <> [] ->
  Alpm.init_transaction h (flags_of (default no_options options)) = Raised e ->
  is_alpm_error e = true ->
  install pkgs conflicts options self
  = (Returned false,
     set_total_packages_to_download (Z.of_nat (length targets)) self,
     out1 ++ [Log DEBUG (AStr "%d target(s) found")
                  [AInt (Z.of_nat (length targets))];
              TransInit (flags_of (default no_options options));
              Log ERROR (AStr "Can't init alpm transaction: %s") [AExn e];
              Log ERROR (AStr "Can't initialize alpm transaction") []]).
Proof.
  intros Hhandle Hpkgs Htargets Hne Hinit He.
  rewrite (install_run _ _ _ _ h Hhandle Hpkgs).
  rewrite (bind_returned _ _ _ _ _ _ Htargets). cbn [fst snd].
  pose proof (keeps_state_install_targets _ _ _ _ _ _ _ Htargets) as ->.
  unfold install_transaction. rewrite bool_decide_eq_false_2 by assumption.
  unfold logging. rewrite emit_bind, get_bind, put_bind.
  now rewrite (bind_returned _ _ _ _ _ _
                 (init_transaction_refused (Some (default no_options options))
                    (set_total_packages_to_download
                       (Z.of_nat (length targets)) self)
                    h e Hhandle Hinit He)).
Qed.

Lemma install_init_refused_witness :
  fst (fst (@install Example.by_name ["cinnamon"] None None
              (Example.pac None (Some Example2.locked_handle))))
  = Returned false.
Proof.
  now rewrite (@install_init_refused Example.by_name ["cinnamon"] None None
                 (Example.pac None (Some Example2.locked_handle))
                 Example2.locked_handle ["cinnamon"]
                 (repos_of [Example.community; Example.antergos])
                 (Example.pac None (Some Example2.locked_handle))
                 [Log DEBUG (AList ["cinnamon"]) []]
                 (AlpmError "unable to lock database")
                 eq_refl ltac:(discriminate) ltac:(vm_compute; reflexivity)
                 ltac:(discriminate) eq_refl eq_refl).
Defined.

(** ** [release]: the instance without its handle *)

(** X9. After [release] the instance has no handle, whether it had one or
    not, and nothing else of it has changed. A call of [install] that
    follows raises [pyalpm.error] with [alpm is not initialised] logged,
    and a call of [init_transaction] raises [AttributeError]: neither
    reaches pyalpm. *)
Theorem release_then_install `{Extern} (pkgs : list string)
    (conflicts : option (list string)) (options : option Options) (self : Pac) :
  let '(r, self', out) := Ops.release self in
  r = Returned tt /\ out = []
  /\ self' = Ops.set_handle None self
  /\ install pkgs conflicts options self'
     = (Raised (AlpmError ""), self',
        [Log ERROR (AStr "alpm is not initialised") []])
  /\ Pac.init_transaction options self' = (Raised AttributeError, self', []).
Proof.
  unfold Ops.release. rewrite get_bind.
  destruct self as [q [h |] f p t n d s l]; simpl;
    repeat split; reflexivity.
Qed.

(** ** [get_group_pkgs]: the first repository that has the group *)

Lemma first_grp_first group (dbs : list DB) (i : nat) repo grpname pkgs :
  dbs !! i = Some repo ->
  read_grp repo group = Some (grpname, pkgs) ->
  (forall (k : nat) other, (k < i)%nat -> dbs !! k = Some other ->
                           read_grp other group = None) ->
  first_grp group dbs = Some pkgs.
Proof.
  revert i. induction dbs as [| d dbs IH]; intros i Hi Hgrp Hbefore.
  - discriminate.
  - destruct i as [| i]; simpl in *.
    + injection Hi as ->. now rewrite Hgrp.
    + rewrite (Hbefore 0%nat d) by (simpl; auto; lia).
      apply (IH i); auto.
      intros k other Hk Hother. apply (Hbefore (S k)); simpl; auto; lia.
Qed.

Lemma first_grp_none group (dbs : list DB) :
  first_grp group dbs = None <-> Forall (fun d => read_grp d group = None) dbs.
Proof.
  induction dbs as [| d dbs IH]; simpl.
  - split; auto.
  - destruct (read_grp d group) as [[grpname pkgs] |] eqn:Hd.
    + split; [discriminate |]. intros Hall. inversion Hall; congruence.
    + rewrite IH. split.
      * intros Hall. now constructor.
      * intros Hall. now inversion Hall.
Qed.

(** X10. [get_group_pkgs] answers with the members that the first sync
    database, in the order of [get_syncdbs], gives for the group, whatever
    the later databases give; it answers [None] exactly when no database
    has the group. It changes nothing and logs nothing. *)
Theorem get_group_pkgs_priority (group : string) (self : Pac) (h : Handle) :
  handle self = Some h ->
  (forall (i : nat) repo grpname pkgs,
      get_syncdbs h !! i = Some repo ->
      read_grp repo group = Some (grpname, pkgs) ->
      (forall (k : nat) other, (k < i)%nat -> get_syncdbs h !! k = Some other ->
                               read_grp other group = None) ->
      get_group_pkgs group self = (Returned (Some pkgs), self, []))
  /\ (get_group_pkgs group self = (Returned None, self, [])
      <-> Forall (fun d => read_grp d group = None) (get_syncdbs h)).
Proof.
  intros Hhandle. unfold get_group_pkgs. rewrite get_bind, Hhandle. split.
  - intros i repo grpname pkgs Hi Hgrp Hbefore.
    now rewrite (first_grp_first _ _ _ _ _ _ Hi Hgrp Hbefore).
  - rewrite <- first_grp_none. split.
    + now intros [= ->].
    + now intros ->.
Qed.

Lemma get_group_pkgs_priority_witness :
  get_group_pkgs "base" (Example.pac None (Some Example2.vanilla_handle))
  = (Returned (Some [{| name := "linux"; version := "4.19.4-1"; db := "core" |}]),
     Example.pac None (Some Example2.vanilla_handle), []).
Proof.
  apply (proj1 (get_group_pkgs_priority "base"
                  (Example.pac None (Some Example2.vanilla_handle))
                  Example2.vanilla_handle eq_refl)
           0%nat Example2.core "base").
  - reflexivity.
  - reflexivity.
  - intros k other Hk. lia.
Defined.

(** ** [queue_event]: what a call does to the queue and to the instance *)

Lemma put_nowait_some q item q' :
  put_nowait q item = Some q' ->
  maxsize q' = maxsize q
  /\ items q' = items q ++ [item]
  /\ unfinished_tasks q' = S (unfinished_tasks q)
  /\ within_capacity q'.
Proof.
  unfold put_nowait, within_capacity.
  destruct (0 <? maxsize q) eqn:Hpos; simpl.
  - destruct (maxsize q <=? Z.of_nat (length (items q))) eqn:Hfull; [discriminate |].
    intros [= <-]. simpl. repeat split; try reflexivity.
    intros _. rewrite length_app. simpl. apply Z.leb_gt in Hfull. lia.
  - intros [= <-]. simpl. repeat split; try reflexivity.
    apply Z.ltb_ge in Hpos. lia.
Qed.

(** X11. A call of [queue_event], whatever it is given and however it
    ends, leaves a missing queue missing, and does to a queue one of two
    things: nothing, or it appends one item of the kind it was given and
    counts one more unfinished task. The capacity does not change, and a
    queue within its capacity stays within it. *)
Theorem queue_event_queue `{Extern} (caller : Code) (event_type : string)
    (event_text : value) (self : Pac) :
  let '(_, self', _) := queue_event caller event_type event_text self in
  match callback_queue self with
  | None => callback_queue self' = None
  | Some q =>
      exists q',
      callback_queue self' = Some q'
      /\ maxsize q' = maxsize q
      /\ (q' = q
          \/ exists text,
              items q' = items q ++ [(event_type, text)]
              /\ unfinished_tasks q' = S (unfinished_tasks q))
      /\ (within_capacity q -> within_capacity q')
  end.
Proof.
  unfold queue_event.
  destruct (format_event event_type event_text) as [v | e].
  2: { simpl. destruct (callback_queue self) as [q |]; [| reflexivity].
       exists q. repeat split; auto. }
  rewrite get_bind. case_bool_decide as Hlast.
  { simpl. destruct (callback_queue self) as [q |]; [| reflexivity].
    exists q. repeat split; auto. }
  run_monad.
  destruct (callback_queue self) as [q |] eqn:Hq; simpl.
  - destruct (put_nowait q _) as [q' |] eqn:Hput; simpl.
    + apply put_nowait_some in Hput as (Hmax & Hitems & Htasks & Hcap).
      destruct (String.eqb event_type "error"); simpl;
        (exists q'; repeat split; [exact Hmax | right; eauto | auto]).
    + destruct (String.eqb event_type "error"); simpl; rewrite Hq;
        (exists q; repeat split; auto).
  - destruct (String.eqb event_type "error"); simpl; exact Hq.
Qed.

(** X12. An event that is not an error and that finds the queue full is
    dropped with a warning, and the call returns; but the event is recorded
    as the last of its kind. So when it is sent again, it is suppressed,
    whatever room the consumer has made in the queue meanwhile: it reaches
    the consumer only after another event of its kind. *)
Theorem queue_event_dropped_for_good `{Extern} (caller caller' : Code)
    (event_type : string) (event_text v : value) (self : Pac) (q q2 : Queue) :
  callback_queue self = Some q ->
  0 < maxsize q <= Z.of_nat (length (items q)) ->
  event_type <> "error" ->
  format_event event_type event_text = Returned v ->
  last_event self !! event_type <> Some v ->
  let self' := set_last_event (<[event_type := v]> (last_event self)) self in
  queue_event caller event_type event_text self
  = (Returned tt, self', [Log WARNING (AStr "Callback queue is full") []])
  /\ queue_event caller' event_type event_text (set_callback_queue (Some q2) self')
     = (Returned tt, set_callback_queue (Some q2) self', []).
Proof.
  intros Hq [Hpos Hfull] Hkind Hfmt Hlast self'. split.
  - unfold queue_event. rewrite Hfmt, get_bind.
    rewrite bool_decide_eq_false_2 by assumption.
    apply String.eqb_neq in Hkind. run_monad. rewrite Hkind, Hq.
    unfold put_nowait.
    replace (0 <? maxsize q) with true by (symmetry; now apply Z.ltb_lt).
    replace (maxsize q <=? Z.of_nat (length (items q))) with true
      by (symmetry; now apply Z.leb_le).
    reflexivity.
  - apply queue_event_suppressed with (v := v); [exact Hfmt |].
    simpl. apply lookup_insert_eq.
Qed.

Lemma queue_event_dropped_for_good_witness :
  let self := Example.pac (Some Example.full_queue) None in
  fst (fst (@queue_event Example.by_name Example.a_caller "info"
              (Str "Checking integrity...") self))
  = Returned tt.
Proof.
  intros self.
  now rewrite (proj1 (@queue_event_dropped_for_good Example.by_name
                        Example.a_caller Example.a_caller "info"
                        (Str "Checking integrity...")
                        (Str "Checking integrity...") self
                        Example.full_queue Example.empty_queue
                        eq_refl ltac:(simpl; lia) ltac:(discriminate) eq_refl
                        ltac:(simpl; rewrite lookup_empty; discriminate))).
Defined.

Lemma queue_event_fields `{Extern} caller event_type event_text self r self' out :
  queue_event caller event_type event_text self = (r, self', out) ->
  handle self' = handle self
  /\ last_dl_filename self' = last_dl_filename self
  /\ last_dl_progress self' = last_dl_progress self
  /\ last_dl_total_size self' = last_dl_total_size self
  /\ total_packages_to_download self' = total_packages_to_download self
  /\ downloaded_packages self' = downloaded_packages self
  /\ total_download_size self' = total_download_size self.
Proof.
  unfold queue_event.
  destruct (format_event event_type event_text) as [v | e];
    [| now intros [= <- <- <-]].
  rewrite get_bind. case_bool_decide as Hlast; [now intros [= <- <- <-] |].
  run_monad.
  destruct (callback_queue self) as [q |]; simpl.
  - destruct (put_nowait q _); simpl;
      destruct (String.eqb event_type "error"); simpl;
      intros [= <- <- <-]; repeat split.
  - destruct (String.eqb event_type "error"); simpl;
      intros [= <- <- <-]; repeat split.
Qed.

(** ** [cb_dl]: the label of a file and the counters *)

Lemma substring_all (s : string) : substring 0 (String.length s) s = s.
Proof. induction s as [| c s IH]; simpl; [reflexivity | now rewrite IH]. Qed.

Lemma substring_prefix (base ext : string) :
  substring 0 (String.length base) (base +:+ ext) = base.
Proof.
  induction base as [| c base IH]; simpl.
  - now destruct ext.
  - now rewrite IH.
Qed.

Lemma substring_suffix (base ext : string) :
  substring (String.length base) (String.length ext) (base +:+ ext) = ext.
Proof.
  induction base as [| c base IH]; simpl; [apply substring_all | exact IH].
Qed.

Lemma length_append (base ext : string) :
  String.length (base +:+ ext) = (String.length base + String.length ext)%nat.
Proof. induction base as [| c base IH]; simpl; [reflexivity | now rewrite IH]. Qed.

Lemma substring_split (n : nat) (s : string) :
  (n <= String.length s)%nat ->
  s = substring 0 n s +:+ substring n (String.length s - n) s.
Proof.
  revert n. induction s as [| c s IH]; intros n Hn; simpl in *.
  - now destruct n.
  - destruct n as [| n]; simpl.
    + now rewrite substring_all.
    + change (String c s
              = String c (substring 0 n s +:+ substring n (String.length s - n) s)).
      f_equal. apply IH. lia.
Qed.

Lemma endswith_append (base ext : string) : endswith (base +:+ ext) ext = true.
Proof.
  unfold endswith. rewrite length_append.
  replace (String.length base + String.length ext - String.length ext)%nat
    with (String.length base) by lia.
  rewrite substring_suffix, String.eqb_refl.
  rewrite andb_true_r. apply Nat.leb_le. lia.
Qed.

Lemma strip_ext_append (base ext : string) :
  ext <> "" -> strip_ext (base +:+ ext) ext = base.
Proof.
  intros Hext. unfold strip_ext. rewrite endswith_append, length_append.
  destruct (String.length ext =? 0)%nat eqn:Hlen.
  { apply Nat.eqb_eq in Hlen. destruct ext; [contradiction | discriminate Hlen]. }
  replace (String.length base + String.length ext - String.length ext)%nat
    with (String.length base) by lia.
  apply substring_prefix.
Qed.

(** X13. The suffix of a file name, as [cb_dl] removes it with [endswith]
    and the slice [filename[:-len(ext)]]: a name that ends with a suffix
    that is not empty loses exactly the suffix, a name that does not end
    with the suffix is kept whole, and a name ends with the suffix exactly
    when it is some text followed by the suffix. Every name ends with the
    empty suffix, and then the slice leaves nothing of the name. *)
Theorem strip_ext_spec (s ext : string) :
  (ext <> "" -> forall base, strip_ext (base +:+ ext) ext = base)
  /\ (endswith s ext = false -> strip_ext s ext = s)
  /\ (endswith s ext = true <-> exists base, s = base +:+ ext)
  /\ endswith s "" = true
  /\ strip_ext s "" = "".
Proof.
  assert (Hempty : endswith s "" = true).
  { assert (Hsub : forall t n, substring n 0 t = "")
      by (induction t as [| c t IH]; intros [| n]; simpl; auto).
    unfold endswith. simpl. now rewrite Hsub. }
  split; [| split; [| split; [| split]]].
  - intros Hext base. now apply strip_ext_append.
  - intros Hends. unfold strip_ext. now rewrite Hends.
  - split.
    + unfold endswith. intros Hends.
      apply andb_true_iff in Hends as [Hlen Hsuffix].
      apply Nat.leb_le in Hlen. apply String.eqb_eq in Hsuffix.
      exists (substring 0 (String.length s - String.length ext) s).
      etransitivity;
        [apply (substring_split (String.length s - String.length ext) s); lia |].
      f_equal.
      replace (String.length s - (String.length s - String.length ext))%nat
        with (String.length ext) by lia.
      exact Hsuffix.
    + intros [base ->]. apply endswith_append.
  - exact Hempty.
  - unfold strip_ext. now rewrite Hempty.
Qed.

Lemma strip_ext_spec_witness :
  strip_ext ("core" +:+ ".db") ".db" = "core"
  /\ strip_ext "core.files" ".db" = "core.files".
Proof.
  split.
  - apply (proj1 (strip_ext_spec "core.db" ".db")). discriminate.
  - apply (proj1 (proj2 (strip_ext_spec "core.files" ".db"))). reflexivity.
Defined.

Lemma cb_dl_new_database `{Extern} filename transfer total self :
  Some filename <> last_dl_filename self \/ last_dl_total_size self <> total ->
  total_download_size self = 0 ->
  cb_dl filename transfer total self
  = (queue_event (code_of "cb_dl" 577) "info"
       (Str ("Updating " +:+ strip_ext filename ".db" +:+ " database"));;
     queue_event (code_of "cb_dl" 577) "percent" (Num 0%R))
      (set_last_dl (Some filename) total 0%R self).
Proof.
  intros Hnew Hsize. unfold cb_dl. rewrite get_bind.
  assert (Hcond : bool_decide (Some filename <> last_dl_filename self)
                  || bool_decide (last_dl_total_size self <> total) = true).
  { destruct Hnew as [Hnew | Hnew].
    - now rewrite (bool_decide_eq_true_2 _ Hnew).
    - rewrite (bool_decide_eq_true_2 _ Hnew). apply orb_true_r. }
  rewrite Hcond. run_monad. rewrite Hsize. simpl.
  destruct (queue_event _ "info" _ _) as [[[[] | e] self1] out1]; [| reflexivity].
  now destruct (queue_event _ "percent" _ self1) as [[res self2] out2].
Qed.

(** X14. The first call of [cb_dl] for a file. While packages are
    downloaded, the archive [base.pkg.tar.xz] is announced by the info
    event [Downloading base...]; while the databases are updated, so that
    the total download size is 0, [base.db] is announced by
    [Updating base database]. In both cases the percent event of value 0
    follows, and only an archive counts as a downloaded package. *)
Theorem cb_dl_label `{Extern} (base : string) (transfer total : Z) (self : Pac) :
  let caller := code_of "cb_dl" 577 in
  (Some (base +:+ ".pkg.tar.xz") <> last_dl_filename self
   \/ last_dl_total_size self <> total ->
   total_download_size self <> 0 ->
   cb_dl (base +:+ ".pkg.tar.xz") transfer total self
   = (queue_event caller "info" (Str ("Downloading " +:+ base +:+ "..."));;
      queue_event caller "percent" (Num 0%R))
       (set_downloaded_packages (downloaded_packages self + 1)
          (set_last_dl (Some (base +:+ ".pkg.tar.xz")) total 0%R self)))
  /\ (Some (base +:+ ".db") <> last_dl_filename self
      \/ last_dl_total_size self <> total ->
      total_download_size self = 0 ->
      cb_dl (base +:+ ".db") transfer total self
      = (queue_event caller "info" (Str ("Updating " +:+ base +:+ " database"));;
         queue_event caller "percent" (Num 0%R))
          (set_last_dl (Some (base +:+ ".db")) total 0%R self)).
Proof.
  intros caller. split; intros Hnew Hsize.
  - rewrite (cb_dl_new_stream _ _ _ _ Hnew Hsize).
    now rewrite strip_ext_append by discriminate.
  - rewrite (cb_dl_new_database _ _ _ _ Hnew Hsize).
    now rewrite strip_ext_append by discriminate.
Qed.

Lemma cb_dl_raises `{Extern} filename transfer total self e :
  last_dl_filename self = Some filename ->
  last_dl_total_size self = total ->
  dl_progress total transfer = Raised e ->
  cb_dl filename transfer total self = (Raised e, self, []).
Proof.
  intros Hfile Htotal Hprogress. unfold cb_dl. rewrite get_bind.
  rewrite Hfile, Htotal.
  rewrite bool_decide_eq_false_2 by (intros Hne; now apply Hne).
  rewrite bool_decide_eq_false_2 by (intros Hne; now apply Hne).
  cbn [orb]. rewrite Hprogress. reflexivity.
Qed.

Lemma dl_progress_raised total transfer e :
  dl_progress total transfer = Raised e ->
  e = ValueError /\ total <= 0 /\ transfer <= -1024.
Proof.
  unfold dl_progress. destruct (0 <? total) eqn:Htotal; [discriminate |].
  destruct (transfer <=? -1024) eqn:Htransfer; [| discriminate].
  intros [= <-]. apply Z.ltb_ge in Htotal. apply Z.leb_le in Htransfer. auto.
Qed.

(** X15. A call of [cb_dl], whatever it is given. It returns, with the
    file name and the total size it was given recorded as the current
    stream, unless the size of the stream is unknown and the amount
    transferred is -1024 or less: then it raises [ValueError] and has done
    nothing. It counts one more downloaded package exactly when the call
    starts a new stream while the total download size is not 0, and it
    never touches the handle, the total download size or the number of
    packages to download. *)
Theorem cb_dl_step `{Extern} (filename : string) (transfer total : Z) (self : Pac) :
  let new_stream :=
    bool_decide (Some filename <> last_dl_filename self)
    || bool_decide (last_dl_total_size self <> total) in
  let '(r, self', out) := cb_dl filename transfer total self in
  handle self' = handle self
  /\ total_download_size self' = total_download_size self
  /\ total_packages_to_download self' = total_packages_to_download self
  /\ downloaded_packages self'
     = downloaded_packages self
       + (if new_stream && negb (total_download_size self =? 0) then 1 else 0)
  /\ (r = Returned tt
      /\ last_dl_filename self' = Some filename
      /\ last_dl_total_size self' = total
      \/ r = Raised ValueError
         /\ self' = self /\ out = []
         /\ new_stream = false /\ total <= 0 /\ transfer <= -1024).
Proof.
  intros new_stream.
  destruct new_stream eqn:Hnew; unfold new_stream in Hnew.
  - assert (Hcond : Some filename <> last_dl_filename self
                    \/ last_dl_total_size self <> total).
    { apply orb_true_iff in Hnew as [Hnew | Hnew];
        apply bool_decide_eq_true in Hnew; auto. }
    destruct (total_download_size self =? 0) eqn:Hsize.
    + apply Z.eqb_eq in Hsize. rewrite (cb_dl_new_database _ _ _ _ Hcond Hsize).
      destruct (queue_event_returns (code_of "cb_dl" 577) "info"
                  (Str ("Updating " +:+ strip_ext filename ".db" +:+ " database"))
                  (Str ("Updating " +:+ strip_ext filename ".db" +:+ " database"))
                  (set_last_dl (Some filename) total 0%R self))
        as (self1 & out1 & Hinfo); [discriminate | reflexivity |].
      destruct (queue_event_returns (code_of "cb_dl" 577) "percent" (Num 0%R)
                  (Str (format_2f 0%R)) self1)
        as (self2 & out2 & Hpercent); [discriminate | reflexivity |].
      rewrite (bind_returned _ _ _ _ _ _ Hinfo), Hpercent.
      apply queue_event_fields in Hinfo as (I1 & I2 & I3 & I4 & I5 & I6 & I7).
      apply queue_event_fields in Hpercent as (P1 & P2 & P3 & P4 & P5 & P6 & P7).
      simpl in *. repeat split; try congruence; [lia |].
      left. repeat split; congruence.
    + apply Z.eqb_neq in Hsize. rewrite (cb_dl_new_stream _ _ _ _ Hcond Hsize).
      destruct (queue_event_returns (code_of "cb_dl" 577) "info"
                  (Str ("Downloading " +:+ strip_ext filename ".pkg.tar.xz"
                        +:+ "..."))
                  (Str ("Downloading " +:+ strip_ext filename ".pkg.tar.xz"
                        +:+ "..."))
                  (set_downloaded_packages (downloaded_packages self + 1)
                     (set_last_dl (Some filename) total 0%R self)))
        as (self1 & out1 & Hinfo); [discriminate | reflexivity |].
      destruct (queue_event_returns (code_of "cb_dl" 577) "percent" (Num 0%R)
                  (Str (format_2f 0%R)) self1)
        as (self2 & out2 & Hpercent); [discriminate | reflexivity |].
      rewrite (bind_returned _ _ _ _ _ _ Hinfo), Hpercent.
      apply queue_event_fields in Hinfo as (I1 & I2 & I3 & I4 & I5 & I6 & I7).
      apply queue_event_fields in Hpercent as (P1 & P2 & P3 & P4 & P5 & P6 & P7).
      simpl in *. repeat split; try congruence.
      left. repeat split; congruence.
  - apply orb_false_iff in Hnew as [Hfile Htotal].
    apply bool_decide_eq_false in Hfile, Htotal.
    assert (Hfile' : last_dl_filename self = Some filename).
    { destruct (decide (last_dl_filename self = Some filename)) as [Heq | Hne];
        [exact Heq |].
      exfalso. apply Hfile. intros Heq. apply Hne. now symmetry. }
    assert (Htotal' : last_dl_total_size self = total).
    { destruct (decide (last_dl_total_size self = total)) as [Heq | Hne];
        [exact Heq | now exfalso]. }
    clear Hfile Htotal. simpl andb. cbv iota. rewrite Z.add_0_r.
    destruct (dl_progress total transfer) as [progress | e] eqn:Hprogress.
    + rewrite (cb_dl_same_stream _ _ _ _ _ Hfile' Htotal' Hprogress).
      destruct (Rgt_dec progress (last_dl_progress self)) as [Hgt | Hle].
      * destruct (queue_event_returns (code_of "cb_dl" 577) "percent"
                    (Num progress) (Str (format_2f progress)) self)
          as (self1 & out1 & Hpercent); [discriminate | reflexivity |].
        rewrite Hpercent.
        apply queue_event_fields in Hpercent
          as (P1 & P2 & P3 & P4 & P5 & P6 & P7).
        simpl. repeat split; try congruence. left. now repeat split.
      * repeat split. left. now repeat split.
    + rewrite (cb_dl_raises _ _ _ _ _ Hfile' Htotal' Hprogress).
      apply dl_progress_raised in Hprogress as (-> & Hsize & Htransfer).
      repeat split. right. now repeat split.
Qed.

(** ** [cb_progress] without a target *)

(** X16. Without a target, [cb_progress] uses neither [total] nor
    [current]: whatever they are, zero included, the call returns, and it
    is the percent event of value [percent / 100] alone. *)
Theorem cb_progress_no_target `{Extern} (percent total current : Z) (self : Pac) :
  cb_progress "" percent total current self
  = queue_event (code_of "cb_progress" 566) "percent"
      (Num (IZR percent / 100)%R) self
  /\ exists self' out,
      cb_progress "" percent total current self = (Returned tt, self', out).
Proof.
  assert (Hrun : cb_progress "" percent total current self
                 = queue_event (code_of "cb_progress" 566) "percent"
                     (Num (IZR percent / 100)%R) self).
  { unfold cb_progress. simpl. unfold truediv. simpl. unfold lift.
    now rewrite ret_bind. }
  split; [exact Hrun |]. rewrite Hrun.
  apply queue_event_returns with (v := Str (format_2f (IZR percent / 100)%R));
    [discriminate | reflexivity].
Qed.

(** ** [get_packages_info] and [get_package_info] *)

Section PkgInfoFacts.

Context {Info : Type} (get_pkginfo : Package -> Info) (no_info : Info).

Lemma add_package_info_loop_found repos names acc self :
  Forall (fun n => exists pkg, find_sync_package n repos = inl pkg) names ->
  exists packages_info,
    foldM (Ops.add_package_info get_pkginfo repos) names acc self
    = (Returned packages_info, self, [])
    /\ forall n,
        packages_info !! n
        = if bool_decide (n ∈ names) then get_pkginfo <$> found repos n
          else acc !! n.
Proof.
  intros Hall. revert acc.
  induction Hall as [| name names [pkg Hfind] _ IH]; intros acc.
  - exists acc. split; [reflexivity |]. intros n.
    rewrite bool_decide_eq_false_2; [reflexivity | apply not_elem_of_nil].
  - destruct (IH (<[name := get_pkginfo pkg]> acc)) as (m & Hrun & Hlookup).
    exists m. split.
    + simpl foldM.
      assert (Hstep : Ops.add_package_info get_pkginfo repos acc name self
                      = (Returned (<[name := get_pkginfo pkg]> acc), self, []))
        by (unfold Ops.add_package_info; now rewrite Hfind).
      now rewrite (bind_returned _ _ _ _ _ _ Hstep), Hrun.
    + intros n. rewrite Hlookup.
      destruct (decide (n ∈ names)) as [Hin | Hnotin].
      * rewrite !bool_decide_eq_true_2; [reflexivity | now right | exact Hin].
      * rewrite (bool_decide_eq_false_2 _ Hnotin).
        destruct (decide (n = name)) as [-> | Hne].
        -- rewrite bool_decide_eq_true_2 by now left.
           rewrite lookup_insert_eq. unfold found. now rewrite Hfind.
        -- rewrite lookup_insert_ne by congruence.
           rewrite bool_decide_eq_false_2; [reflexivity |].
           intros Hin. apply elem_of_cons in Hin as [-> | Hin]; contradiction.
Qed.

Lemma add_package_info_loop_returns repos names acc self :
  exists packages_info out,
    foldM (Ops.add_package_info get_pkginfo repos) names acc self
    = (Returned packages_info, self, out).
Proof.
  revert acc. induction names as [| name names IH]; intros acc.
  - now exists acc, [].
  - simpl foldM.
    destruct (find_sync_package name repos) as [pkg | msg] eqn:Hfind.
    + assert (Hstep : Ops.add_package_info get_pkginfo repos acc name self
                      = (Returned (<[name := get_pkginfo pkg]> acc), self, []))
        by (unfold Ops.add_package_info; now rewrite Hfind).
      destruct (IH (<[name := get_pkginfo pkg]> acc)) as (m & out & Hrun).
      exists m, out. now rewrite (bind_returned _ _ _ _ _ _ Hstep), Hrun.
    + assert (Hstep : Ops.add_package_info get_pkginfo repos acc name self
                      = (Returned ∅, self, [Log ERROR (AStr msg) []]))
        by (unfold Ops.add_package_info; now rewrite Hfind).
      destruct (IH ∅) as (m & out & Hrun).
      exists m, (Log ERROR (AStr msg) [] :: out).
      now rewrite (bind_returned _ _ _ _ _ _ Hstep), Hrun.
Qed.

(** X17. [get_packages_info] with names that are all found: the result
    has exactly the names asked for, each with the information of the
    package that [find_sync_package] gives for it, which is also what
    [get_package_info] returns for that name; nothing is logged. *)
Theorem get_packages_info_found (pkg_names : list string) (self : Pac) (h : Handle) :
  handle self = Some h ->
  pkg_names <> [] ->
  Forall (fun n => exists pkg,
              find_sync_package n (repos_of (get_syncdbs h)) = inl pkg)
         pkg_names ->
  exists packages_info,
    Ops.get_packages_info get_pkginfo (Some pkg_names) self
    = (Returned packages_info, self, [])
    /\ (forall n, n ∉ pkg_names -> packages_info !! n = None)
    /\ (forall n, n ∈ pkg_names ->
                  exists info,
                    packages_info !! n = Some info
                    /\ Ops.get_package_info get_pkginfo no_info n self
                       = (Returned info, self, [])).
Proof.
  intros Hhandle Hnames Hall.
  destruct (add_package_info_loop_found (repos_of (get_syncdbs h)) pkg_names ∅
              self Hall) as (m & Hrun & Hlookup).
  exists m. split; [| split].
  - unfold Ops.get_packages_info. simpl default. rewrite get_bind, Hhandle.
    now rewrite bool_decide_eq_false_2 by assumption.
  - intros n Hn. rewrite Hlookup, bool_decide_eq_false_2 by assumption.
    apply lookup_empty.
  - intros n Hn. rewrite Forall_forall in Hall.
    destruct (Hall n Hn) as [pkg Hfind].
    exists (get_pkginfo pkg). split.
    + rewrite Hlookup, bool_decide_eq_true_2 by assumption.
      unfold found. now rewrite Hfind.
    + unfold Ops.get_package_info. rewrite get_bind, Hhandle. now rewrite Hfind.
Qed.

(** X18. [get_packages_info] with a name that is not found: the
    information gathered for the names before it is thrown away. When the
    names after it are all found, the result has exactly those names; the
    names before it are missing from the result, unless they come again
    after it. *)
Theorem get_packages_info_forgets (before after : list string) (missing msg : string)
    (self : Pac) (h : Handle) :
  handle self = Some h ->
  find_sync_package missing (repos_of (get_syncdbs h)) = inr msg ->
  Forall (fun n => exists pkg,
              find_sync_package n (repos_of (get_syncdbs h)) = inl pkg)
         after ->
  exists packages_info out,
    Ops.get_packages_info get_pkginfo (Some (before ++ missing :: after)) self
    = (Returned packages_info, self, out)
    /\ Log ERROR (AStr msg) [] ∈ out
    /\ forall n,
        packages_info !! n
        = if bool_decide (n ∈ after)
          then get_pkginfo <$> found (repos_of (get_syncdbs h)) n
          else None.
Proof.
  intros Hhandle Hmissing Hall.
  destruct (add_package_info_loop_returns (repos_of (get_syncdbs h)) before ∅ self)
    as (m0 & out0 & Hbefore).
  destruct (add_package_info_loop_found (repos_of (get_syncdbs h)) after ∅
              self Hall) as (m & Hafter & Hlookup).
  exists m, (out0 ++ [Log ERROR (AStr msg) []]). split; [| split].
  - unfold Ops.get_packages_info. simpl default. rewrite get_bind, Hhandle.
    rewrite bool_decide_eq_false_2 by (now destruct before).
    rewrite foldM_app, (bind_returned _ _ _ _ _ _ Hbefore).
    simpl foldM.
    assert (Hstep : Ops.add_package_info get_pkginfo (repos_of (get_syncdbs h))
                      m0 missing self
                    = (Returned ∅, self, [Log ERROR (AStr msg) []]))
      by (unfold Ops.add_package_info; now rewrite Hmissing).
    rewrite (bind_returned _ _ _ _ _ _ Hstep), Hafter. now rewrite app_nil_r.
  - apply elem_of_app. right. now left.
  - intros n. rewrite Hlookup. now rewrite lookup_empty.
Qed.

Lemma all_packages_info_flat (syncdbs : list DB) (acc : gmap string Info) :
  fold_left
    (fun packages_info repo =>
       fold_left
         (fun packages_info pkg => <[name pkg := get_pkginfo pkg]> packages_info)
         (pkgcache repo) packages_info)
    syncdbs acc
  = fold_left
      (fun packages_info pkg => <[name pkg := get_pkginfo pkg]> packages_info)
      (flat_map pkgcache syncdbs) acc.
Proof.
  revert acc. induction syncdbs as [| repo syncdbs IH]; intros acc; simpl.
  - reflexivity.
  - now rewrite fold_left_app, IH.
Qed.

Lemma insert_all_lookup (pkgs : list Package) (acc : gmap string Info) n :
  fold_left
    (fun packages_info pkg => <[name pkg := get_pkginfo pkg]> packages_info)
    pkgs acc !! n
  = match last (List.filter (fun pkg => String.eqb (name pkg) n) pkgs) with
    | Some pkg => Some (get_pkginfo pkg)
    | None => acc !! n
    end.
Proof.
  revert acc. induction pkgs as [| pkg pkgs IH]; intros acc; simpl.
  - reflexivity.
  - rewrite IH. destruct (String.eqb (name pkg) n) eqn:Hname.
    + apply String.eqb_eq in Hname. rewrite stdpp.list_basics.list.last_cons.
      destruct (last (List.filter _ pkgs)); [reflexivity |].
      rewrite <- Hname. now rewrite lookup_insert_eq.
    + apply String.eqb_neq in Hname.
      destruct (last (List.filter _ pkgs)); [reflexivity |].
      now rewrite lookup_insert_ne.
Qed.

(** X19. [get_packages_info] without names: the result has, for each
    package name of the sync databases, the information of the last
    package of that name, in the order of the databases. So for a package
    that several repositories have, it is the repository of the lowest
    priority that is described. *)
Theorem get_packages_info_all (self : Pac) (h : Handle) :
  handle self = Some h ->
  exists packages_info,
    Ops.get_packages_info get_pkginfo None self = (Returned packages_info, self, [])
    /\ Ops.get_packages_info get_pkginfo (Some []) self
       = (Returned packages_info, self, [])
    /\ forall n,
        packages_info !! n
        = get_pkginfo
            <$> last (List.filter (fun pkg => String.eqb (name pkg) n)
                        (flat_map pkgcache (get_syncdbs h))).
Proof.
  intros Hhandle. exists (Ops.all_packages_info get_pkginfo (get_syncdbs h)).
  split; [| split].
  - unfold Ops.get_packages_info. simpl default. now rewrite get_bind, Hhandle.
  - unfold Ops.get_packages_info. simpl default. now rewrite get_bind, Hhandle.
  - intros n. unfold Ops.all_packages_info.
    rewrite all_packages_info_flat, insert_all_lookup.
    destruct (last _); [reflexivity | apply lookup_empty].
Qed.

End PkgInfoFacts.

Lemma get_packages_info_found_witness :
  let self := Example.pac None (Some (Example.the_handle None None)) in
  exists packages_info,
    Ops.get_packages_info version (Some ["cinnamon"]) self
    = (Returned packages_info, self, [])
    /\ packages_info !! "cinnamon" = Some "4.0.9-1".
Proof.
  intros self.
  destruct (get_packages_info_found version "" ["cinnamon"] self
              (Example.the_handle None None) eq_refl ltac:(discriminate)
              ltac:(constructor;
                    [now exists Example.cinnamon_community | constructor]))
    as (m & Hrun & _ & Hin).
  exists m. split; [exact Hrun |].
  destruct (Hin "cinnamon" ltac:(now left)) as (info & Hlookup & Hinfo).
  rewrite Hlookup. now injection Hinfo as <-.
Defined.

Lemma get_packages_info_forgets_witness :
  let self := Example.pac None (Some (Example.the_handle None None)) in
  exists packages_info out,
    Ops.get_packages_info version (Some ["cinnamon"; "no-such-package"]) self
    = (Returned packages_info, self, out)
    /\ packages_info !! "cinnamon" = None.
Proof.
  intros self.
  destruct (get_packages_info_forgets version ["cinnamon"] [] "no-such-package"
              "Package 'no-such-package' was not found." self
              (Example.the_handle None None) eq_refl eq_refl ltac:(constructor))
    as (m & out & Hrun & _ & Hlookup).
  exists m, out. split; [exact Hrun |]. now rewrite Hlookup.
Defined.

Lemma get_packages_info_all_witness :
  let self := Example.pac None (Some (Example.the_handle None None)) in
  exists packages_info,
    Ops.get_packages_info version None self = (Returned packages_info, self, [])
    /\ packages_info !! "cinnamon" = Some "4.0.9-2".
Proof.
  intros self.
  destruct (get_packages_info_all version self (Example.the_handle None None)
              eq_refl) as (m & Hrun & _ & Hlookup).
  exists m. split; [exact Hrun |]. now rewrite Hlookup.
Defined.

(** ** [cb_event] *)

(** X20. [cb_event] always returns: it never raises and never ends the
    process. For a code that is not a key of [events], and for the code of
    the start of a package operation when no later key of [events] is equal
    to it, it only logs its three warnings: no event is queued and the
    instance does not change. *)
Theorem cb_event_quiet `{Extern} `{Ops.AlpmEvents} (event_type : Z)
    (event_txt : string) (self : Pac) :
  let warnings :=
    [Log WARNING (AStr Ops.tildes) []; Log WARNING (AStr event_txt) [];
     Log WARNING (AStr Ops.tildes) []] in
  (exists self' out,
      Ops.cb_event event_type event_txt self = (Returned tt, self', out))
  /\ (event_type ∉ map fst Ops.events_items ->
      Ops.cb_event event_type event_txt self = (Returned tt, self, warnings))
  /\ (event_type = Ops.ALPM_EVENT_PACKAGE_OPERATION_START ->
      Forall (fun key => key <> event_type) (drop 5 (map fst Ops.events_items)) ->
      Ops.cb_event event_type event_txt self = (Returned tt, self, warnings)).
Proof.
  intros warnings.
  assert (Hrun : forall action,
             default "" (Ops.events !! event_type) = action ->
             Ops.cb_event event_type event_txt self
             = if negb (String.eqb action "")
               then let '(r, self', out) :=
                      queue_event (code_of "cb_event" 503) "info" (Str action) self in
                    (r, self', warnings ++ out)
               else (Returned tt, self, warnings)).
  { intros action Haction. unfold Ops.cb_event. rewrite Haction.
    unfold logging, logging_obj. rewrite !emit_bind.
    destruct (negb (String.eqb action "")); [| reflexivity].
    now destruct (queue_event _ "info" (Str action) self) as [[r self'] out]. }
  split; [| split].
  - rewrite (Hrun _ eq_refl).
    destruct (negb (String.eqb _ "")); [| now eexists _, _].
    destruct (queue_event_returns (code_of "cb_event" 503) "info"
                (Str (default "" (Ops.events !! event_type)))
                (Str (default "" (Ops.events !! event_type))) self)
      as (self1 & out1 & Hevent); [discriminate | reflexivity |].
    rewrite Hevent. now eexists _, _.
  - intros Hkey. rewrite (Hrun ""); [reflexivity |].
    unfold Ops.events, Ops.events_items in *. simpl in *.
    repeat (apply not_elem_of_cons in Hkey as [? Hkey]).
    now rewrite !lookup_insert_ne, lookup_empty by congruence.
  - intros -> Hlater. rewrite (Hrun ""); [reflexivity |].
    unfold Ops.events, Ops.events_items in *. simpl in *.
    repeat (apply Forall_cons in Hlater as [? Hlater]).
    rewrite !lookup_insert_ne by assumption.
    now rewrite lookup_insert_eq.
Qed.

Lemma cb_event_quiet_witness :
  @Ops.cb_event Example.by_name Example2.event_codes 9 "package operation"
    (Example.pac (Some Example.empty_queue) None)
  = (Returned tt, Example.pac (Some Example.empty_queue) None,
     [Log WARNING (AStr Ops.tildes) [];
      Log WARNING (AStr "package operation") [];
      Log WARNING (AStr Ops.tildes) []]).
Proof.
  apply (proj2 (proj2 (@cb_event_quiet Example.by_name Example2.event_codes 9
                         "package operation"
                         (Example.pac (Some Example.empty_queue) None)))).
  - reflexivity.
  - repeat constructor; discriminate.
Defined.

Lemma cb_dl_label_witness :
  let self := Example.pac (Some Example.empty_queue) None in
  @cb_dl Example.by_name "core.db" 0 1000 self
  = (@queue_event Example.by_name (@code_of Example.by_name "cb_dl" 577) "info"
       (Str "Updating core database");;
     @queue_event Example.by_name (@code_of Example.by_name "cb_dl" 577) "percent"
       (Num 0%R))
      (set_last_dl (Some "core.db") 1000 0%R self).
Proof.
  intros self.
  apply (proj2 (@cb_dl_label Example.by_name "core" 0 1000 self)).
  - left. discriminate.
  - reflexivity.
Defined.

(** ** [remove], [refresh] and [upgrade] *)

#[local] Existing Instances Ops.M2_ret Ops.M2_bind.

Section Monad2.

Context {A B : Type}.

Lemma bind2_returned (m : Ops.M2 A) (k : A -> Ops.M2 B) self a self1 out1 :
  m self = (Returned a, self1, out1) ->
  (m ≫= k) self = let '(r, self2, out2) := k a self1 in (r, self2, out1 ++ out2).
Proof. intros Hm. unfold mbind, Ops.M2_bind, Ops.bind2. now rewrite Hm. Qed.

Lemma bind2_raised (m : Ops.M2 A) (k : A -> Ops.M2 B) self e self1 out1 :
  m self = (Raised e, self1, out1) ->
  (m ≫= k) self = (Raised e, self1, out1).
Proof. intros Hm. unfold mbind, Ops.M2_bind, Ops.bind2. now rewrite Hm. Qed.

Lemma get2_bind (k : Pac -> Ops.M2 B) self : (Ops.get2 ≫= k) self = k self self.
Proof.
  unfold mbind, Ops.M2_bind, Ops.bind2, Ops.get2.
  now destruct (k self self) as [[r self'] out].
Qed.

Lemma lift2_run (m : M A) self r self' out :
  m self = (r, self', out) -> Ops.lift2 m self = (r, self', map inl out).
Proof. intros Hm. unfold Ops.lift2. now rewrite Hm. Qed.

End Monad2.

Lemma remove_targets_found database pkg_names pkgs targets :
  Forall2 (fun n pkg => get_pkg database n = Some pkg) pkg_names pkgs ->
  Ops.remove_targets database pkg_names targets = inl (targets ++ pkgs).
Proof.
  intros Hall. revert targets.
  induction Hall as [| n pkg pkg_names pkgs Hn _ IH]; intros targets; simpl.
  - now rewrite app_nil_r.
  - rewrite Hn, IH. now rewrite <- app_assoc.
Qed.




Lemma remove_pkgs_loop `{Ops.Engine} transaction pkgs self :
  (forall pkg, Ops.remove_pkg transaction pkg = None) ->
  exists out,
    Ops.foldM2
      (fun _ pkg =>
         Ops.lift2 (logging DEBUG "Adding package '%s' to remove transaction"
                      [AStr (name pkg)]);;
         Ops.call2 (Ops.RemovePkg (tid transaction) pkg)
                   (Ops.remove_pkg transaction pkg))
      pkgs tt self
    = (Returned tt, self, out)
    /\ calls_of out = map (Ops.RemovePkg (tid transaction)) pkgs
    /\ engine_effects out = [].
Proof.
  intros Hremove. induction pkgs as [| pkg pkgs (out & Hrun & Hcalls & Heffects)].
  - now exists [].
  - exists ([inl (Log DEBUG (AStr "Adding package '%s' to remove transaction")
                 [AStr (name pkg)]);
             inr (Ops.RemovePkg (tid transaction) pkg)] ++ out).
    split; [| split].
    + simpl Ops.foldM2.
      assert (Hstep :
                (Ops.lift2 (logging DEBUG "Adding package '%s' to remove transaction"
                              [AStr (name pkg)]);;
                 Ops.call2 (Ops.RemovePkg (tid transaction) pkg)
                           (Ops.remove_pkg transaction pkg)) self
                = (Returned tt, self,
                   [inl (Log DEBUG (AStr "Adding package '%s' to remove transaction")
                           [AStr (name pkg)]);
                    inr (Ops.RemovePkg (tid transaction) pkg)])).
      { unfold mbind, Ops.M2_bind, Ops.bind2, Ops.lift2, Ops.call2. simpl.
        now rewrite Hremove. }
      now rewrite (bind2_returned _ _ _ _ _ _ Hstep), Hrun.
    + simpl. now rewrite Hcalls.
    + exact Heffects.
Qed.

Lemma effects_of_app out1 out2 :
  effects_of (out1 ++ out2) = effects_of out1 ++ effects_of out2.
Proof. unfold effects_of. apply omap_app. Qed.

Lemma calls_of_app out1 out2 : calls_of (out1 ++ out2) = calls_of out1 ++ calls_of out2.
Proof. unfold calls_of. apply omap_app. Qed.

Lemma effects_of_inl (out : list effect) : effects_of (map inl out) = out.
Proof.
  induction out as [| e out IH]; [reflexivity |].
  simpl. unfold effects_of in *. simpl. now rewrite IH.
Qed.

Lemma calls_of_inl (out : list effect) : calls_of (map inl out) = [].
Proof. induction out as [| e out IH]; [reflexivity | exact IH]. Qed.

Lemma releases_quiet t out : engine_effects out = [] -> releases t (effects_of out) = 0%nat.
Proof.
  unfold engine_effects, releases. generalize (effects_of out). clear out.
  intros out. induction out as [| e out IH]; [reflexivity |].
  destruct e; simpl; try discriminate; exact IH.
Qed.

(** X22. [remove] with names that are all installed, on an engine that
    opens a transaction, accepts every removal and releases without error,
    with [prepare] and [commit] that return or raise [pyalpm.error]. The
    call returns whether both steps succeeded and leaves the instance as it
    was; [remove_pkg] is called once for each name given, in their order,
    a name given twice included; and the transaction is released once. *)
Theorem remove_commits `{Ops.Engine} (pkg_names : list string) (pkgs : list Package)
    (options : option Options) (self : Pac) (h : Handle)
    (transaction : Transaction) :
  handle self = Some h ->
  Forall2 (fun n pkg => get_pkg (get_localdb h) n = Some pkg) pkg_names pkgs ->
  Alpm.init_transaction h (flags_of (default no_options options))
  = Returned transaction ->
  (forall pkg, Ops.remove_pkg transaction pkg = None) ->
  engine_outcome (prepare transaction) ->
  engine_outcome (commit transaction) ->
  Alpm.release transaction = None ->
  let '(r, self', out) := Ops.remove pkg_names options self in
  r = Returned (succeeded (prepare transaction) && succeeded (commit transaction))
  /\ self' = self
  /\ calls_of out = map (Ops.RemovePkg (tid transaction)) pkgs
  /\ releases (tid transaction) (effects_of out) = 1%nat.
Proof.
  intros Hhandle Hfound Hinit Hremove Hp Hc Hrelease. unfold Ops.remove.
  rewrite get2_bind, Hhandle.
  rewrite (remove_targets_found _ _ _ [] Hfound). simpl app.
  rewrite (bind2_returned _ _ _ _ _ _
             (lift2_run _ _ _ _ _
                (init_transaction_opened (Some (default no_options options))
                   self h transaction Hhandle Hinit))).
  destruct (remove_pkgs_loop transaction pkgs self Hremove)
    as (out2 & Hloop & Hcalls & Hquiet).
  rewrite (bind2_returned _ _ _ _ _ _ Hloop).
  destruct (finalize_transaction_run transaction self Hp Hc Hrelease)
    as (fin & Hfin & Hreleases & _).
  rewrite (lift2_run _ _ _ _ _ Hfin).
  split; [reflexivity |]. split; [reflexivity |].
  rewrite !calls_of_app, !effects_of_app, !calls_of_inl, !effects_of_inl, Hcalls.
  split; [now rewrite app_nil_r |].
  rewrite !releases_app, Hreleases.
  now rewrite (releases_quiet _ _ Hquiet).
Qed.

Lemma remove_commits_witness :
  let self := Example.pac None (Some Example2.installed_handle) in
  let linux := {| name := "linux"; version := "4.19.4-1"; db := "local" |} in
  let '(r, self', out) := @Ops.remove Example2.engine ["linux"; "linux"] None self in
  r = Returned true
  /\ self' = self
  /\ calls_of out = [Ops.RemovePkg 0 linux; Ops.RemovePkg 0 linux]
  /\ releases 0 (effects_of out) = 1%nat.
Proof.
  intros self linux.
  pose proof (@remove_commits Example2.engine ["linux"; "linux"] [linux; linux]
                None self Example2.installed_handle
                (Example.transaction None None) eq_refl
                ltac:(repeat constructor) eq_refl (fun _ => eq_refl) I I eq_refl)
    as Hw.
  destruct (@Ops.remove Example2.engine ["linux"; "linux"] None self)
    as [[r self'] out].
  exact Hw.
Defined.

(** *** [upgrade] *)

Lemma load_loop_ok `{Ops.Engine} h tarballs pkgs targets self :
  Forall2 (fun tarball pkg => Ops.load_pkg h tarball = Returned pkg) tarballs pkgs ->
  Ops.foldM2
    (fun targets tarball =>
       match Ops.load_pkg h tarball with
       | Returned pkg =>
           Ops.call2 (Ops.LoadPkg tarball) None;; mret (targets ++ [pkg])
       | Raised e => Ops.call2 (Ops.LoadPkg tarball) (Some e);; mret targets
       end)
    tarballs targets self
  = (Returned (targets ++ pkgs), self, map (fun t => inr (Ops.LoadPkg t)) tarballs).
Proof.
  intros Hall. revert targets.
  induction Hall as [| tarball pkg tarballs pkgs Hload _ IH]; intros targets.
  - simpl. now rewrite app_nil_r.
  - simpl Ops.foldM2. rewrite Hload.
    assert (Hstep :
              (Ops.call2 (Ops.LoadPkg tarball) None;; mret (targets ++ [pkg])) self
              = (Returned (targets ++ [pkg]), self,
                 [inr (Ops.LoadPkg tarball) : effect + Ops.engine_call]))
      by reflexivity.
    rewrite (bind2_returned _ _ _ _ _ _ Hstep), IH.
    now rewrite <- app_assoc.
Qed.

Lemma load_loop_raises `{Ops.Engine} h before bad after pkgs e targets self :
  Forall2 (fun tarball pkg => Ops.load_pkg h tarball = Returned pkg) before pkgs ->
  Ops.load_pkg h bad = Raised e ->
  Ops.foldM2
    (fun targets tarball =>
       match Ops.load_pkg h tarball with
       | Returned pkg =>
           Ops.call2 (Ops.LoadPkg tarball) None;; mret (targets ++ [pkg])
       | Raised e => Ops.call2 (Ops.LoadPkg tarball) (Some e);; mret targets
       end)
    (before ++ bad :: after) targets self
  = (Raised e, self, map (fun t => inr (Ops.LoadPkg t)) (before ++ [bad])).
Proof.
  intros Hall Hbad. revert targets.
  induction Hall as [| tarball pkg before pkgs Hload _ IH]; intros targets.
  - simpl Ops.foldM2. rewrite Hbad.
    assert (Hstep :
              (Ops.call2 (Ops.LoadPkg bad) (Some e);; mret targets) self
              = (Raised e, self, [inr (Ops.LoadPkg bad) : effect + Ops.engine_call]))
      by reflexivity.
    now rewrite (bind2_raised _ _ _ _ _ _ Hstep).
  - simpl Ops.foldM2. rewrite Hload.
    assert (Hstep :
              (Ops.call2 (Ops.LoadPkg tarball) None;; mret (targets ++ [pkg])) self
              = (Returned (targets ++ [pkg]), self,
                 [inr (Ops.LoadPkg tarball) : effect + Ops.engine_call]))
      by reflexivity.
    now rewrite (bind2_returned _ _ _ _ _ _ Hstep), IH.
Qed.

Lemma first_unreadable `{Ops.Engine} h tarballs tarball e0 :
  tarball ∈ tarballs ->
  Ops.load_pkg h tarball = Raised e0 ->
  exists before bad after pkgs e,
    tarballs = before ++ bad :: after
    /\ Forall2 (fun t pkg => Ops.load_pkg h t = Returned pkg) before pkgs
    /\ Ops.load_pkg h bad = Raised e.
Proof.
  intros Hin Hraised. induction tarballs as [| t tarballs IH].
  - now apply elem_of_nil in Hin.
  - destruct (Ops.load_pkg h t) as [pkg | e] eqn:Hload.
    + apply elem_of_cons in Hin as [-> | Hin]; [congruence |].
      destruct (IH Hin) as (before & bad & after & pkgs & e & -> & Hall & Hbad).
      exists (t :: before), bad, after, (pkg :: pkgs), e.
      split; [reflexivity |]. split; [now constructor | exact Hbad].
    + exists [], t, tarballs, [], e. split; [reflexivity |].
      split; [constructor | exact Hload].
Qed.

Lemma all_readable `{Ops.Engine} h tarballs :
  (forall t, t ∈ tarballs -> exists pkg, Ops.load_pkg h t = Returned pkg) ->
  exists pkgs,
    Forall2 (fun t pkg => Ops.load_pkg h t = Returned pkg) tarballs pkgs.
Proof.
  intros Hall. induction tarballs as [| t tarballs IH].
  - exists []. constructor.
  - destruct (Hall t) as [pkg Hload]; [apply elem_of_cons; now left |].
    destruct IH as [pkgs Hpkgs].
    { intros t' Hin. apply Hall, elem_of_cons. now right. }
    exists (pkg :: pkgs). now constructor.
Qed.

Lemma upgrade_add_loop transaction targets self :
  (forall pkg, add_pkg transaction pkg = None) ->
  Ops.foldM2
    (fun _ pkg =>
       Ops.lift2 (call (TransAddPkg (tid transaction) pkg) (add_pkg transaction pkg)))
    targets tt self
  = (Returned tt, self,
     map (fun pkg => inl (TransAddPkg (tid transaction) pkg)) targets).
Proof.
  intros Hadd. induction targets as [| pkg targets IH]; [reflexivity |].
  simpl Ops.foldM2.
  assert (Hstep :
            Ops.lift2 (call (TransAddPkg (tid transaction) pkg)
                         (add_pkg transaction pkg)) self
            = (Returned tt, self,
               [inl (TransAddPkg (tid transaction) pkg) : effect + Ops.engine_call])).
  { unfold Ops.lift2, call. now rewrite Hadd. }
  now rewrite (bind2_returned _ _ _ _ _ _ Hstep), IH.
Qed.

Lemma effects_of_calls (tarballs : list string) :
  effects_of (map (fun t => inr (Ops.LoadPkg t)) tarballs) = [].
Proof. induction tarballs as [| t tarballs IH]; [reflexivity | exact IH]. Qed.

Lemma calls_of_calls (tarballs : list string) :
  calls_of (map (fun t => inr (Ops.LoadPkg t)) tarballs) = map Ops.LoadPkg tarballs.
Proof.
  induction tarballs as [| t tarballs IH]; [reflexivity |].
  simpl. unfold calls_of in *. simpl. now rewrite IH.
Qed.

Lemma effects_of_added transaction (targets : list Package) :
  effects_of (map (fun pkg => inl (TransAddPkg (tid transaction) pkg)) targets)
  = map (TransAddPkg (tid transaction)) targets.
Proof.
  induction targets as [| pkg targets IH]; [reflexivity |].
  simpl. unfold effects_of in *. simpl. now rewrite IH.
Qed.

Lemma calls_of_added transaction (targets : list Package) :
  calls_of (map (fun pkg => inl (TransAddPkg (tid transaction) pkg)) targets) = [].
Proof. induction targets as [| pkg targets IH]; [reflexivity | exact IH]. Qed.

Lemma added_add_pkgs t (targets : list Package) :
  added (map (TransAddPkg t) targets) = targets.
Proof.
  induction targets as [| pkg targets IH]; [reflexivity |].
  simpl. now rewrite IH.
Qed.

Lemma releases_add_pkgs t t' (targets : list Package) :
  releases t (map (TransAddPkg t') targets) = 0%nat.
Proof. induction targets as [| pkg targets IH]; [reflexivity | exact IH]. Qed.

(** X23. [upgrade] with an archive that pyalpm cannot load. The exception
    of [load_pkg] leaves [upgrade]: it is the one of the first archive that
    does not load, after the archives before it were loaded. Nothing is
    logged and no transaction is opened, so there is none to release; the
    instance is as it was. *)
Theorem upgrade_unreadable `{Ops.Engine} (pkgs : list string)
    (conflicts : option (list string)) (options : option Options)
    (self : Pac) (h : Handle) (tarball : string) (e0 : exn) :
  handle self = Some h ->
  tarball ∈ pkgs ->
  Ops.load_pkg h tarball = Raised e0 ->
  exists before bad e out,
    Ops.upgrade pkgs conflicts options self = (Raised e, self, out)
    /\ bad ∈ pkgs
    /\ Ops.load_pkg h bad = Raised e
    /\ Forall (fun t => t ∈ pkgs /\ exists pkg, Ops.load_pkg h t = Returned pkg) before
    /\ calls_of out = map Ops.LoadPkg (before ++ [bad])
    /\ effects_of out = [].
Proof.
  intros Hhandle Hin Hraised.
  assert (Hset : tarball ∈ list_set pkgs).
  { unfold list_set. now apply elem_of_elements, elem_of_list_to_set. }
  destruct (first_unreadable h _ _ _ Hset Hraised)
    as (before & bad & after & loaded & e & Hsplit & Hbefore & Hbad).
  assert (Hsub : forall t, t ∈ list_set pkgs -> t ∈ pkgs).
  { intros t Ht. unfold list_set in Ht.
    now apply elem_of_elements, elem_of_list_to_set in Ht. }
  exists before, bad, e, (map (fun t => inr (Ops.LoadPkg t)) (before ++ [bad])).
  split; [| split; [| split; [| split; [| split]]]].
  - unfold Ops.upgrade. rewrite get2_bind, Hhandle.
    case_bool_decide as Hempty; [subst pkgs; now apply elem_of_nil in Hin |].
    rewrite Hsplit.
    now rewrite (bind2_raised _ _ _ _ _ _
                   (load_loop_raises h before bad after loaded e [] self Hbefore Hbad)).
  - apply Hsub. rewrite Hsplit. apply elem_of_app. right. apply elem_of_cons. now left.
  - exact Hbad.
  - apply Forall_forall. intros t Ht. split.
    + apply Hsub. rewrite Hsplit. apply elem_of_app. now left.
    + clear -Hbefore Ht. induction Hbefore as [| t' pkg before loaded Hload _ IH].
      * now apply elem_of_nil in Ht.
      * apply elem_of_cons in Ht as [-> | Ht]; [now exists pkg | now apply IH].
  - apply calls_of_calls.
  - apply effects_of_calls.
Qed.

Lemma upgrade_unreadable_witness :
  exists before bad e out,
    @Ops.upgrade Example2.engine ["a.pkg.tar.xz"; "broken.pkg.tar.xz"] None None
      (Example.pac None (Some Example2.installed_handle))
    = (Raised e, Example.pac None (Some Example2.installed_handle), out)
    /\ bad ∈ ["a.pkg.tar.xz"; "broken.pkg.tar.xz"]
    /\ @Ops.load_pkg Example2.engine Example2.installed_handle bad = Raised e
    /\ Forall (fun t => t ∈ ["a.pkg.tar.xz"; "broken.pkg.tar.xz"]
                        /\ exists pkg,
                             @Ops.load_pkg Example2.engine Example2.installed_handle t
                             = Returned pkg) before
    /\ calls_of out = map Ops.LoadPkg (before ++ [bad])
    /\ effects_of out = [].
Proof.
  apply (@upgrade_unreadable Example2.engine ["a.pkg.tar.xz"; "broken.pkg.tar.xz"]
           None None (Example.pac None (Some Example2.installed_handle))
           Example2.installed_handle "broken.pkg.tar.xz"
           (AlpmError "cannot open package file") eq_refl).
  - apply elem_of_cons. right. apply elem_of_cons. now left.
  - reflexivity.
Defined.

(** X24. [upgrade] with archives that all load, on an engine that opens a
    transaction, accepts every package and releases without error, with
    [prepare] and [commit] that return or raise [pyalpm.error]. The call
    returns whether both steps succeeded and leaves the instance as it
    was. Every archive of the list is loaded, and loaded once however
    often the list names it; the packages added to the transaction are the
    loaded ones, in the order of loading; the transaction is released
    once. *)
Theorem upgrade_commits `{Ops.Engine} (pkgs : list string)
    (conflicts : option (list string)) (options : option Options)
    (self : Pac) (h : Handle) (transaction : Transaction) :
  handle self = Some h ->
  pkgs <> [] ->
  (forall t, t ∈ pkgs -> exists pkg, Ops.load_pkg h t = Returned pkg) ->
  Alpm.init_transaction h (flags_of (default no_options options))
  = Returned transaction ->
  (forall pkg, add_pkg transaction pkg = None) ->
  engine_outcome (prepare transaction) ->
  engine_outcome (commit transaction) ->
  Alpm.release transaction = None ->
  let '(r, self', out) := Ops.upgrade pkgs conflicts options self in
  r = Returned (succeeded (prepare transaction) && succeeded (commit transaction))
  /\ self' = self
  /\ (exists tarballs,
        calls_of out = map Ops.LoadPkg tarballs
        /\ NoDup tarballs
        /\ (forall t, t ∈ tarballs <-> t ∈ pkgs)
        /\ Forall2 (fun t pkg => Ops.load_pkg h t = Returned pkg)
             tarballs (added (effects_of out)))
  /\ releases (tid transaction) (effects_of out) = 1%nat.
Proof.
  intros Hhandle Hpkgs Hload Hinit Hadd Hp Hc Hrelease.
  destruct (all_readable h (list_set pkgs)) as [targets Htargets].
  { intros t Ht. apply Hload. unfold list_set in Ht.
    now apply elem_of_elements, elem_of_list_to_set in Ht. }
  unfold Ops.upgrade. rewrite get2_bind, Hhandle.
  case_bool_decide as Hempty; [contradiction |].
  rewrite (bind2_returned _ _ _ _ _ _ (load_loop_ok h _ _ [] self Htargets)).
  simpl app.
  rewrite (bind2_returned _ _ _ _ _ _
             (lift2_run _ _ _ _ _
                (init_transaction_opened (Some (default no_options options))
                   self h transaction Hhandle Hinit))).
  rewrite (bind2_returned _ _ _ _ _ _ (upgrade_add_loop transaction targets self Hadd)).
  destruct (finalize_transaction_run transaction self Hp Hc Hrelease)
    as (fin & Hfin & Hreleases & Hadded).
  rewrite (lift2_run _ _ _ _ _ Hfin).
  split; [reflexivity |]. split; [reflexivity |].
  rewrite !calls_of_app, !effects_of_app, !calls_of_inl, !effects_of_inl.
  rewrite calls_of_calls, effects_of_calls, calls_of_added, effects_of_added.
  split.
  - exists (list_set pkgs). rewrite !app_nil_r. split; [reflexivity |].
    split; [unfold list_set; apply NoDup_elements |]. split.
    + intros t. unfold list_set. rewrite elem_of_elements.
      apply (elem_of_list_to_set (C := gset string)).
    + rewrite !added_app, Hadded, added_add_pkgs. simpl. now rewrite app_nil_r.
  - rewrite !releases_app, Hreleases, releases_add_pkgs. reflexivity.
Qed.

Lemma upgrade_commits_witness :
  let self := Example.pac None (Some Example2.installed_handle) in
  let '(r, self', out) :=
    @Ops.upgrade Example2.engine ["a.pkg.tar.xz"; "a.pkg.tar.xz"] None None self in
  r = Returned true
  /\ self' = self
  /\ (exists tarballs,
        calls_of out = map Ops.LoadPkg tarballs
        /\ NoDup tarballs
        /\ (forall t, t ∈ tarballs <-> t ∈ ["a.pkg.tar.xz"; "a.pkg.tar.xz"])
        /\ Forall2 (fun t pkg =>
                      @Ops.load_pkg Example2.engine Example2.installed_handle t
                      = Returned pkg)
             tarballs (added (effects_of out)))
  /\ releases 0 (effects_of out) = 1%nat.
Proof.
  intros self.
  assert (Hload : forall t, t ∈ ["a.pkg.tar.xz"; "a.pkg.tar.xz"] ->
                    exists pkg,
                      @Ops.load_pkg Example2.engine Example2.installed_handle t
                      = Returned pkg).
  { intros t Ht. exists {| name := "a.pkg.tar.xz"; version := "1"; db := "" |}.
    apply elem_of_cons in Ht as [-> | Ht]; [reflexivity |].
    apply elem_of_cons in Ht as [-> | Ht]; [reflexivity |].
    now apply elem_of_nil in Ht. }
  pose proof (@upgrade_commits Example2.engine ["a.pkg.tar.xz"; "a.pkg.tar.xz"]
                None None self Example2.installed_handle
                (Example.transaction None None) eq_refl ltac:(discriminate)
                Hload eq_refl (fun _ => eq_refl) I I eq_refl) as Hw.
  destruct (@Ops.upgrade Example2.engine ["a.pkg.tar.xz"; "a.pkg.tar.xz"] None None
              self) as [[r self'] out].
  exact Hw.
Defined.

(** *** [refresh] *)

Lemma refresh_step `{Ops.Engine} h transaction database (res : bool) self :
  handle self = Some h ->
  Alpm.init_transaction h (flags_of no_options) = Returned transaction ->
  (transaction ← Ops.lift2 (init_transaction None);
   match transaction with
   | Some transaction =>
       Ops.call2 (Ops.Update (db_name database) true) (Ops.update database true);;
       Ops.lift2 (call (TransRelease (tid transaction)) (Alpm.release transaction));;
       mret res
   | None => mret false
   end) self
  = match Ops.update database true, Alpm.release transaction with
    | None, None =>
        (Returned res, self,
         [inl (TransInit (flags_of no_options));
          inr (Ops.Update (db_name database) true);
          inl (TransRelease (tid transaction))])
    | None, Some e =>
        (Raised e, self,
         [inl (TransInit (flags_of no_options));
          inr (Ops.Update (db_name database) true);
          inl (TransRelease (tid transaction))])
    | Some e, _ =>
        (Raised e, self,
         [inl (TransInit (flags_of no_options));
          inr (Ops.Update (db_name database) true)])
    end.
Proof.
  intros Hhandle Hinit.
  rewrite (bind2_returned _ _ _ _ _ _
             (lift2_run _ _ _ _ _
                (init_transaction_opened None self h transaction Hhandle Hinit))).
  unfold mbind, Ops.M2_bind, Ops.bind2, Ops.call2, Ops.lift2, call. simpl.
  destruct (Ops.update database true), (Alpm.release transaction); reflexivity.
Qed.

(** X25. [refresh] on an engine that opens a transaction and releases it
    without error, with databases that all update. The call returns [True]
    and leaves the instance as it was. Its calls into pyalpm are, for each
    sync database in the order of the configuration: a transaction opened
    with the default flags, the forced update of that database, the release
    of the transaction. Nothing is prepared or committed and nothing is
    logged. *)
Theorem refresh_updates `{Ops.Engine} (self : Pac) (h : Handle)
    (transaction : Transaction) :
  handle self = Some h ->
  Alpm.init_transaction h (flags_of no_options) = Returned transaction ->
  (forall database, database ∈ get_syncdbs h -> Ops.update database true = None) ->
  Alpm.release transaction = None ->
  Ops.refresh self
  = (Returned true, self,
     flat_map (fun database =>
                 [inl (TransInit (flags_of no_options));
                  inr (Ops.Update (db_name database) true);
                  inl (TransRelease (tid transaction))])
       (get_syncdbs h)).
Proof.
  intros Hhandle Hinit Hupdate Hrelease. unfold Ops.refresh.
  rewrite get2_bind, Hhandle.
  assert (Hloop : forall syncdbs res,
             (forall database, database ∈ syncdbs -> Ops.update database true = None) ->
             Ops.foldM2
               (fun res database =>
                  transaction ← Ops.lift2 (init_transaction None);
                  match transaction with
                  | Some transaction =>
                      Ops.call2 (Ops.Update (db_name database) true)
                                (Ops.update database true);;
                      Ops.lift2 (call (TransRelease (tid transaction))
                                      (Alpm.release transaction));;
                      mret res
                  | None => mret false
                  end)
               syncdbs res self
             = (Returned res, self,
                flat_map (fun database =>
                            [inl (TransInit (flags_of no_options));
                             inr (Ops.Update (db_name database) true);
                             inl (TransRelease (tid transaction))])
                  syncdbs)).
  { induction syncdbs as [| database syncdbs IH]; intros res Hall; [reflexivity |].
    simpl Ops.foldM2.
    rewrite (bind2_returned _ _ self res self
               [inl (TransInit (flags_of no_options));
                inr (Ops.Update (db_name database) true);
                inl (TransRelease (tid transaction))]).
    - rewrite IH; [reflexivity |].
      intros database' Hin. apply Hall, elem_of_cons. now right.
    - rewrite (refresh_step h transaction database res self Hhandle Hinit).
      rewrite Hall, Hrelease by (apply elem_of_cons; now left). reflexivity. }
  now apply Hloop.
Qed.

Lemma refresh_updates_witness :
  @Ops.refresh Example2.engine (Example.pac None (Some Example2.installed_handle))
  = (Returned true, Example.pac None (Some Example2.installed_handle),
     [inl (TransInit (flags_of no_options)); inr (Ops.Update "community" true);
      inl (TransRelease 0);
      inl (TransInit (flags_of no_options)); inr (Ops.Update "antergos" true);
      inl (TransRelease 0)]).
Proof.
  apply (@refresh_updates Example2.engine
           (Example.pac None (Some Example2.installed_handle))
           Example2.installed_handle (Example.transaction None None)
           eq_refl eq_refl (fun _ _ => eq_refl) eq_refl).
Defined.

(** X26. [refresh] when pyalpm refuses to open a transaction with
    [pyalpm.error], as it does when the database is locked. No database is
    updated; the failure is logged once for each sync database and the call
    returns [False], and does not raise. With no sync database at all it
    returns [True]. *)
Theorem refresh_locked `{Ops.Engine} (self : Pac) (h : Handle) (e : exn) :
  handle self = Some h ->
  Alpm.init_transaction h (flags_of no_options) = Raised e ->
  is_alpm_error e = true ->
  let '(r, self', out) := Ops.refresh self in
  r = Returned (bool_decide (get_syncdbs h = []))
  /\ self' = self
  /\ calls_of out = []
  /\ effects_of out
     = flat_map (fun _ =>
                   [TransInit (flags_of no_options);
                    Log ERROR (AStr "Can't init alpm transaction: %s") [AExn e]])
         (get_syncdbs h).
Proof.
  intros Hhandle Hinit He. unfold Ops.refresh.
  rewrite get2_bind, Hhandle.
  assert (Hloop : forall syncdbs res,
             Ops.foldM2
               (fun res database =>
                  transaction ← Ops.lift2 (init_transaction None);
                  match transaction with
                  | Some transaction =>
                      Ops.call2 (Ops.Update (db_name database) true)
                                (Ops.update database true);;
                      Ops.lift2 (call (TransRelease (tid transaction))
                                      (Alpm.release transaction));;
                      mret res
                  | None => mret false
                  end)
               syncdbs res self
             = (Returned (res && bool_decide (syncdbs = [])), self,
                map inl
                  (flat_map (fun _ =>
                               [TransInit (flags_of no_options);
                                Log ERROR (AStr "Can't init alpm transaction: %s")
                                  [AExn e]])
                     syncdbs))).
  { induction syncdbs as [| database syncdbs IH]; intros res.
    - simpl. now rewrite andb_true_r.
    - simpl Ops.foldM2.
      rewrite (bind2_returned _ _ self false self
                 (map inl [TransInit (flags_of no_options);
                           Log ERROR (AStr "Can't init alpm transaction: %s")
                             [AExn e]])).
      + rewrite IH. now rewrite andb_false_r.
      + rewrite (bind2_returned _ _ _ _ _ _
                   (lift2_run _ _ _ _ _
                      (init_transaction_refused None self h e Hhandle Hinit He))).
        reflexivity. }
  rewrite Hloop. simpl andb.
  split; [reflexivity |]. split; [reflexivity |].
  now rewrite calls_of_inl, effects_of_inl.
Qed.

Lemma refresh_locked_witness :
  let self := Example.pac None (Some Example2.locked_handle) in
  let e := AlpmError "unable to lock database" in
  let '(r, self', out) := @Ops.refresh Example2.engine self in
  r = Returned false
  /\ self' = self
  /\ calls_of out = []
  /\ effects_of out
     = [TransInit (flags_of no_options);
        Log ERROR (AStr "Can't init alpm transaction: %s") [AExn e];
        TransInit (flags_of no_options);
        Log ERROR (AStr "Can't init alpm transaction: %s") [AExn e]].
Proof.
  intros self e.
  pose proof (@refresh_locked Example2.engine self Example2.locked_handle e
                eq_refl eq_refl eq_refl) as Hw.
  destruct (@Ops.refresh Example2.engine self) as [[r self'] out].
  exact Hw.
Defined.

(** X27. [refresh] with a database whose update raises, after databases
    that updated. The exception leaves [refresh], and the transaction
    opened for that database is not released: one more transaction was
    opened than released. The databases after it are not touched. *)
Theorem refresh_update_raises `{Ops.Engine} (self : Pac) (h : Handle)
    (transaction : Transaction) (before after : list DB) (database : DB) (e : exn) :
  handle self = Some h ->
  Alpm.init_transaction h (flags_of no_options) = Returned transaction ->
  get_syncdbs h = before ++ database :: after ->
  (forall database', database' ∈ before -> Ops.update database' true = None) ->
  Ops.update database true = Some e ->
  Alpm.release transaction = None ->
  let '(r, self', out) := Ops.refresh self in
  r = Raised e
  /\ self' = self
  /\ calls_of out
     = map (fun database' => Ops.Update (db_name database') true) (before ++ [database])
  /\ opened (effects_of out) = S (length before)
  /\ releases (tid transaction) (effects_of out) = length before.
Proof.
  intros Hhandle Hinit Hdbs Hupdate Hraises Hrelease. unfold Ops.refresh.
  rewrite get2_bind, Hhandle, Hdbs.
  assert (Hloop : forall res,
             let '(r, self', out) :=
               Ops.foldM2
                 (fun res database =>
                    transaction ← Ops.lift2 (init_transaction None);
                    match transaction with
                    | Some transaction =>
                        Ops.call2 (Ops.Update (db_name database) true)
                                  (Ops.update database true);;
                        Ops.lift2 (call (TransRelease (tid transaction))
                                          (Alpm.release transaction));;
                        mret res
                    | None => mret false
                    end)
                 (before ++ database :: after) res self in
             r = Raised e
             /\ self' = self
             /\ calls_of out
                = map (fun database' => Ops.Update (db_name database') true)
                    (before ++ [database])
             /\ opened (effects_of out) = S (length before)
             /\ releases (tid transaction) (effects_of out) = length before).
  { clear Hdbs. induction before as [| database' before IH]; intros res.
    - simpl Ops.foldM2.
      rewrite (bind2_raised _ _ self e self
                 [inl (TransInit (flags_of no_options));
                  inr (Ops.Update (db_name database) true)]).
      2: { rewrite (refresh_step h transaction database res self Hhandle Hinit).
           now rewrite Hraises. }
      split; [reflexivity |]. split; [reflexivity |]. split; [reflexivity |].
      split; reflexivity.
    - simpl Ops.foldM2.
      rewrite (bind2_returned _ _ self res self
                 [inl (TransInit (flags_of no_options));
                  inr (Ops.Update (db_name database') true);
                  inl (TransRelease (tid transaction))]).
      2: { rewrite (refresh_step h transaction database' res self Hhandle Hinit).
           rewrite Hupdate, Hrelease by (apply elem_of_cons; now left). reflexivity. }
      specialize (IH ltac:(intros d Hd; apply Hupdate, elem_of_cons; now right) res).
      destruct (Ops.foldM2 _ (before ++ database :: after) res self) as [[r self'] out].
      destruct IH as (Hr & Hself & Hcalls & Hopened & Hreleased).
      split; [exact Hr |]. split; [exact Hself |].
      rewrite calls_of_app, effects_of_app, releases_app.
      unfold opened in *. rewrite List.filter_app, List.length_app.
      rewrite Hcalls, Hopened, Hreleased.
      split; [reflexivity |]. split; [reflexivity |].
      cbv [effects_of omap list_omap releases List.filter is_release].
      now rewrite Nat.eqb_refl. }
  apply Hloop.
Qed.

Lemma refresh_update_raises_witness :
  let self := Example.pac None (Some Example2.installed_handle) in
  let '(r, self', out) := @Ops.refresh Example2.offline self in
  r = Raised (AlpmError "failed to retrieve some files")
  /\ self' = self
  /\ calls_of out = [Ops.Update "community" true; Ops.Update "antergos" true]
  /\ opened (effects_of out) = 2%nat
  /\ releases 0 (effects_of out) = 1%nat.
Proof.
  intros self.
  assert (Hbefore : forall database',
             database' ∈ [Example.community] ->
             @Ops.update Example2.offline database' true = None).
  { intros database' Hin. apply elem_of_cons in Hin as [-> | Hin]; [reflexivity |].
    now apply elem_of_nil in Hin. }
  pose proof (@refresh_update_raises Example2.offline self Example2.installed_handle
                (Example.transaction None None) [Example.community] []
                Example.antergos (AlpmError "failed to retrieve some files")
                eq_refl eq_refl eq_refl Hbefore eq_refl eq_refl) as Hw.
  destruct (@Ops.refresh Example2.offline self) as [[r self'] out].
  exact Hw.
Defined.

(** *** More on [finalize_transaction] and [remove] *)

(** X28. The steps of [finalize_transaction], whatever pyalpm does:
    [commit] is called exactly when [prepare] returned, and the result is
    [True] exactly when [prepare], [commit] and [release] all returned. *)
Theorem finalize_transaction_steps (transaction : Transaction) (self : Pac) :
  let '(r, _, out) := finalize_transaction transaction self in
  (In (TransCommit (tid transaction)) out <-> prepare transaction = None)
  /\ (r = Returned true
      <-> prepare transaction = None /\ commit transaction = None
          /\ Alpm.release transaction = None).
Proof.
  destruct transaction as [t add [ep |] [ec |] [er |]];
    try destruct ep; try destruct ec; cbn;
    (split; split;
     [ intros Hin; repeat (destruct Hin as [Hin | Hin]; [discriminate Hin |]);
       try (destruct Hin as [Hin | Hin]; [reflexivity |]);
       try contradiction; try reflexivity
     | intros Hnone; try discriminate Hnone; simpl; tauto
     | intros Hr; try discriminate Hr; repeat split
     | intros (Hp & Hc & Hrl); try discriminate; reflexivity ]).
Qed.

Lemma remove_pkgs_loop_raises `{Ops.Engine} transaction before pkg after e self :
  (forall pkg', pkg' ∈ before -> Ops.remove_pkg transaction pkg' = None) ->
  Ops.remove_pkg transaction pkg = Some e ->
  exists out,
    Ops.foldM2
      (fun _ pkg =>
         Ops.lift2 (logging DEBUG "Adding package '%s' to remove transaction"
                      [AStr (name pkg)]);;
         Ops.call2 (Ops.RemovePkg (tid transaction) pkg)
                   (Ops.remove_pkg transaction pkg))
      (before ++ pkg :: after) tt self
    = (Raised e, self, out)
    /\ calls_of out = map (Ops.RemovePkg (tid transaction)) (before ++ [pkg])
    /\ engine_effects out = [].
Proof.
  intros Hbefore Hraises. induction before as [| pkg' before IH].
  - exists [inl (Log DEBUG (AStr "Adding package '%s' to remove transaction")
                 [AStr (name pkg)]);
            inr (Ops.RemovePkg (tid transaction) pkg)].
    split; [| split; reflexivity].
    simpl Ops.foldM2.
    rewrite (bind2_raised _ _ self e self
               [inl (Log DEBUG (AStr "Adding package '%s' to remove transaction")
                       [AStr (name pkg)]);
                inr (Ops.RemovePkg (tid transaction) pkg)]); [reflexivity |].
    unfold mbind, Ops.M2_bind, Ops.bind2, Ops.lift2, Ops.call2. simpl.
    now rewrite Hraises.
  - destruct IH as (out & Hrun & Hcalls & Hquiet).
    { intros p Hp. apply Hbefore, elem_of_cons. now right. }
    exists ([inl (Log DEBUG (AStr "Adding package '%s' to remove transaction")
                 [AStr (name pkg')]);
             inr (Ops.RemovePkg (tid transaction) pkg')] ++ out).
    split; [| split].
    + simpl Ops.foldM2.
      rewrite (bind2_returned _ _ self tt self
                 [inl (Log DEBUG (AStr "Adding package '%s' to remove transaction")
                         [AStr (name pkg')]);
                  inr (Ops.RemovePkg (tid transaction) pkg')]).
      * now rewrite Hrun.
      * unfold mbind, Ops.M2_bind, Ops.bind2, Ops.lift2, Ops.call2. simpl.
        rewrite Hbefore; [reflexivity | apply elem_of_cons; now left].
    + simpl. now rewrite Hcalls.
    + exact Hquiet.
Qed.

Lemma opened_app out1 out2 : opened (out1 ++ out2) = (opened out1 + opened out2)%nat.
Proof. unfold opened. now rewrite List.filter_app, List.length_app. Qed.

Lemma opened_quiet out : engine_effects out = [] -> opened (effects_of out) = 0%nat.
Proof.
  unfold engine_effects, opened. generalize (effects_of out). clear out.
  intros out. induction out as [| e out IH]; [reflexivity |].
  destruct e; simpl; try discriminate; exact IH.
Qed.

(** X29. [remove] when pyalpm refuses a package: [remove_pkg] raises for
    one of the targets, after accepting the ones before it. The exception
    leaves [remove]; the transaction that was opened is not released, and
    nothing is prepared or committed. *)
Theorem remove_pkg_raises `{Ops.Engine} (pkg_names : list string)
    (before after : list Package) (pkg : Package) (options : option Options)
    (self : Pac) (h : Handle) (transaction : Transaction) (e : exn) :
  handle self = Some h ->
  Forall2 (fun n pkg => get_pkg (get_localdb h) n = Some pkg) pkg_names
    (before ++ pkg :: after) ->
  Alpm.init_transaction h (flags_of (default no_options options))
  = Returned transaction ->
  (forall pkg', pkg' ∈ before -> Ops.remove_pkg transaction pkg' = None) ->
  Ops.remove_pkg transaction pkg = Some e ->
  let '(r, self', out) := Ops.remove pkg_names options self in
  r = Raised e
  /\ self' = self
  /\ calls_of out = map (Ops.RemovePkg (tid transaction)) (before ++ [pkg])
  /\ opened (effects_of out) = 1%nat
  /\ releases (tid transaction) (effects_of out) = 0%nat
  /\ ~ In (TransPrepare (tid transaction)) (effects_of out).
Proof.
  intros Hhandle Hfound Hinit Hbefore Hraises. unfold Ops.remove.
  rewrite get2_bind, Hhandle.
  rewrite (remove_targets_found _ _ _ [] Hfound). simpl app.
  rewrite (bind2_returned _ _ _ _ _ _
             (lift2_run _ _ _ _ _
                (init_transaction_opened (Some (default no_options options))
                   self h transaction Hhandle Hinit))).
  destruct (remove_pkgs_loop_raises transaction before pkg after e self
              Hbefore Hraises) as (out2 & Hloop & Hcalls & Hquiet).
  rewrite (bind2_raised _ _ _ _ _ _ Hloop).
  split; [reflexivity |]. split; [reflexivity |].
  rewrite !calls_of_app, !effects_of_app, !calls_of_inl, !effects_of_inl, Hcalls.
  rewrite opened_app, releases_app, (opened_quiet _ Hquiet), (releases_quiet _ _ Hquiet).
  split; [reflexivity |]. split; [reflexivity |]. split; [reflexivity |].
  intros Hin. apply in_app_or in Hin as [Hin | Hin].
  - destruct Hin as [Hin | []]. discriminate Hin.
  - assert (Hnone : List.filter (fun e => negb (is_log e)) (effects_of out2) = [])
      by exact Hquiet.
    assert (Hin' : In (TransPrepare (tid transaction))
                     (List.filter (fun e => negb (is_log e)) (effects_of out2)))
      by (apply List.filter_In; now split).
    now rewrite Hnone in Hin'.
Qed.

Lemma remove_pkg_raises_witness :
  let self := Example.pac None (Some Example2.installed_handle) in
  let linux := {| name := "linux"; version := "4.19.4-1"; db := "local" |} in
  let '(r, self', out) := @Ops.remove Example2.held ["linux"] None self in
  r = Raised (AlpmError "could not remove package")
  /\ self' = self
  /\ calls_of out = [Ops.RemovePkg 0 linux]
  /\ opened (effects_of out) = 1%nat
  /\ releases 0 (effects_of out) = 0%nat
  /\ ~ In (TransPrepare 0) (effects_of out).
Proof.
  intros self linux.
  assert (Hbefore : forall pkg', pkg' ∈ @nil Package ->
                      @Ops.remove_pkg Example2.held (Example.transaction None None) pkg'
                      = None).
  { intros pkg' Hin. now apply elem_of_nil in Hin. }
  pose proof (@remove_pkg_raises Example2.held ["linux"] [] [] linux None self
                Example2.installed_handle (Example.transaction None None)
                (AlpmError "could not remove package") eq_refl
                ltac:(repeat constructor) eq_refl Hbefore eq_refl) as Hw.
  destruct (@Ops.remove Example2.held ["linux"] None self) as [[r self'] out].
  exact Hw.
Defined.

(** X30. [remove] when pyalpm refuses to open the transaction with
    [pyalpm.error]: the call returns [False] after logging the failure,
    and [remove_pkg] is not called for any of the packages, though they
    are all installed. *)
Theorem remove_init_refused `{Ops.Engine} (pkg_names : list string)
    (pkgs : list Package) (options : option Options) (self : Pac) (h : Handle)
    (e : exn) :
  handle self = Some h ->
  Forall2 (fun n pkg => get_pkg (get_localdb h) n = Some pkg) pkg_names pkgs ->
  Alpm.init_transaction h (flags_of (default no_options options)) = Raised e ->
  is_alpm_error e = true ->
  Ops.remove pkg_names options self
  = (Returned false, self,
     [inl (TransInit (flags_of (default no_options options)));
      inl (Log ERROR (AStr "Can't init alpm transaction: %s") [AExn e]);
      inl (Log ERROR (AStr "Can't init transaction") [])]).
Proof.
  intros Hhandle Hfound Hinit He. unfold Ops.remove.
  rewrite get2_bind, Hhandle.
  rewrite (remove_targets_found _ _ _ [] Hfound). simpl app.
  now rewrite (bind2_returned _ _ _ _ _ _
                 (lift2_run _ _ _ _ _
                    (init_transaction_refused (Some (default no_options options))
                       self h e Hhandle Hinit He))).
Qed.

Lemma remove_init_refused_witness :
  @Ops.remove Example2.engine ["linux"] None
    (Example.pac None (Some Example2.locked_local))
  = (Returned false, Example.pac None (Some Example2.locked_local),
     [inl (TransInit (flags_of no_options));
      inl (Log ERROR (AStr "Can't init alpm transaction: %s")
             [AExn (AlpmError "unable to lock database")]);
      inl (Log ERROR (AStr "Can't init transaction") [])]).
Proof.
  apply (@remove_init_refused Example2.engine ["linux"]
           [{| name := "linux"; version := "4.19.4-1"; db := "local" |}] None
           (Example.pac None (Some Example2.locked_local)) Example2.locked_local
           (AlpmError "unable to lock database") eq_refl
           ltac:(repeat constructor) eq_refl eq_refl).
Defined.
